(** * IOI CMS client-side utility layer (static/js/main.js)

    A shallow embedding of the functions of [main.js] and the properties
    its specification states about them.

    Conventions of the embedding.
    - JavaScript numbers that hold integral values (millisecond
      differences, timer delays, parsed attribute values) are [Z].  A
      JavaScript number is a double: it holds every integer up to 2^53 - 1
      in absolute value exactly ([safe_integer]), and on such values
      [Math.floor (x / k)] with a small [k > 0] is [x / k] on [Z].
      Beyond that range doubles round: [parseInt], which reads numerals
      of any length, gives the nearest double ([ParseInt.to_double]), and
      the arithmetic of the code is stated on safe integers only.
    - JavaScript strings are [string], holding the UTF-8 encoding of the
      text; [undefined]/[null] is [None].
    - The browser objects the code talks to (local storage, element
      attributes, the timer queue, the document body) are explicit state
      that every function takes and returns. *)

From Stdlib Require Import ZArith Lia List Bool Ascii String DecimalString DecimalPos.
From stdpp Require Import base gmap strings list.
Import ListNotations.
Local Open Scope string_scope.
Local Open Scope Z_scope.

(** ** Numbers

    The integers a double holds exactly, with every neighbour:
    [Number.isSafeInteger]. *)
Definition safe_integer (n : Z) : Prop := Z.abs n <= 9007199254740991.

(** [String (n)] for an integral [n] below 1e21 is its decimal numeral;
    this is what a template literal [`${n}`] produces.  (From 1e21 on
    JavaScript prints exponent notation; no safe integer is that large.) *)
Definition js_string_of_Z (n : Z) : string :=
  NilZero.string_of_int (Z.to_int n).

(** ** formatTimeDifference (main.js, lines 202-212)

    On a difference that is a safe integer.  The divisions are
    [Math.floor] of a double division; for a safe integer and the
    divisors 1000, 60, 60 and 24 the double quotient lies on the same side
    of every integer as the exact one, so the floor is the integer
    quotient. *)
Module TimeDiff.

Definition formatTimeDifference (diff : Z) : string :=
  let seconds := diff / 1000 in
  let minutes := seconds / 60 in
  let hours := minutes / 60 in
  let days := hours / 24 in
  if 0 <? days then
    js_string_of_Z days +:+ " day" +:+ (if negb (days =? 1) then "s" else "") +:+ " ago"
  else if 0 <? hours then
    js_string_of_Z hours +:+ " hour" +:+ (if negb (hours =? 1) then "s" else "") +:+ " ago"
  else if 0 <? minutes then
    js_string_of_Z minutes +:+ " minute" +:+ (if negb (minutes =? 1) then "s" else "") +:+ " ago"
  else "Just now".

(** The wording the specification expects for a count [n] of a unit:
    the numeral, the unit name, an "s" unless the count is one. *)
Definition phrase (n : Z) (unit : string) : string :=
  js_string_of_Z n +:+ " " +:+ unit +:+ (if decide (n = 1) then "" else "s") +:+ " ago".

End TimeDiff.

(** ** Theme preference (main.js, lines 234-256)

    The two browser objects the theme functions touch: the attributes of
    the root element ([document.documentElement]) and local storage, both
    maps from names to strings. *)
Module Theme.

Record browser := Browser {
  documentElement : gmap string string;
  localStorage : gmap string string
}.

Definition theme_key : string := "cms-theme".
Definition theme_attr : string := "data-theme".

(** Truthiness of a [getItem] result: [null] and the empty string are falsy. *)
Definition truthy (v : option string) : bool :=
  match v with
  | Some s => negb (String.eqb s "")
  | None => false
  end.

Definition setTheme (theme : string) (b : browser) : browser :=
  {| documentElement := <[theme_attr := theme]> (documentElement b);
     localStorage := <[theme_key := theme]> (localStorage b) |}.

Definition initializeTheme (b : browser) : browser :=
  let savedTheme := localStorage b !! theme_key in
  if truthy savedTheme then
    match savedTheme with
    | Some t => setTheme t b
    | None => b
    end
  else b.

Definition toggleTheme (b : browser) : browser :=
  let currentTheme := documentElement b !! theme_attr in
  let newTheme := if decide (currentTheme = Some "dark") then "light" else "dark" in
  setTheme newTheme b.

(** The state the specification describes: a preference that is one of
    the two tokens, stored under the key and mirrored on the attribute. *)
Definition mirrored_token (b : browser) : Prop :=
  exists v : string,
    (v = "light" \/ v = "dark") /\
    localStorage b !! theme_key = Some v /\
    documentElement b !! theme_attr = Some v.

End Theme.

(** ** The timer queue of the page

    [setTimeout] and [clearTimeout] as the functions of this file use
    them.  Handles are positive integers.  The queue is kept in firing
    order: by due time, timers with the same due time in the order they
    were set.  The delay is taken as the browser takes it, as a 32-bit
    integer.  A timer never fires before its delay has passed; letting
    [d] milliseconds pass fires, in order, every timer that is due by
    then.  The callbacks of this file that go through the queue only
    update page state (they set and clear no timer), so a callback is a
    function on the state, told the time at which it runs. *)
Module Timers.
Section Queue.
Context {Cb St : Type}.
Variable run_cb : Z -> Cb -> St -> St.

Record timer := Timer { tid : positive; due : Z; cb : Cb }.

Record loop := Loop {
  now : Z;
  next_id : positive;
  pending : list timer;
  st : St
}.

Definition with_st (f : St -> St) (w : loop) : loop :=
  Loop (now w) (next_id w) (pending w) (f (st w)).

Fixpoint enqueue (t : timer) (q : list timer) : list timer :=
  match q with
  | [] => [t]
  | u :: q' => if due t <? due u then t :: u :: q' else u :: enqueue t q'
  end.

(** The browser takes the delay as a 32-bit signed integer: the number
    given wraps around modulo 2^32 into the range from -2^31 to 2^31 - 1,
    and a negative result counts as zero.  A delay above 2147483647
    therefore does not wait that long: 3000000000 becomes a negative
    number and the timer is due at once. *)
Definition to_int32 (n : Z) : Z :=
  (n + 2147483648) mod 4294967296 - 2147483648.

Definition delay_ms (delay : Z) : Z := Z.max 0 (to_int32 delay).

(** The delays for which the timer waits as long as it is told. *)
Definition in_range (delay : Z) : Prop := -2147483648 <= delay <= 2147483647.

Definition setTimeout (c : Cb) (delay : Z) (w : loop) : positive * loop :=
  (next_id w,
   Loop (now w) (Pos.succ (next_id w))
        (enqueue (Timer (next_id w) (now w + delay_ms delay) c) (pending w))
        (st w)).

(** Clearing [undefined], [null] or a handle that is not pending does nothing. *)
Definition clearTimeout (h : option positive) (w : loop) : loop :=
  match h with
  | Some id =>
      Loop (now w) (next_id w) (filter (fun t => tid t <> id) (pending w)) (st w)
  | None => w
  end.

Fixpoint fire (T : Z) (q : list timer) (s : St) : list timer * St :=
  match q with
  | [] => ([], s)
  | t :: q' =>
      if due t <=? T then fire T q' (run_cb (due t) (cb t) s) else (q, s)
  end.

Definition elapse (d : Z) (w : loop) : loop :=
  let T := now w + Z.max 0 d in
  let '(q, s) := fire T (pending w) (st w) in
  Loop T (next_id w) q s.

End Queue.
Arguments timer : clear implicits.
Arguments loop : clear implicits.
Arguments delay_ms : simpl never.
End Timers.

(** ** Notifications (main.js, lines 8 and 261-283)

    The page state behind [showNotification]: the global
    [notificationTimeout], the children of [document.body] that this file
    appends, a supply of node identities and the console. *)
Module Notify.

Record element := Element {
  el_id : nat;
  tagName : string;
  className : string;
  cssText : string;
  innerHTML : string;
  value : string
}.

Record page := Page {
  notificationTimeout : option positive;
  body : list element;
  next_el : nat;
  console : list string
}.

(** The one closure [showNotification] hands to [setTimeout]; it holds
    the notification node it was created for. *)
Inductive callback := RemoveNotification (notification : nat).

(** [notification.parentNode] is non-null exactly while the node is a
    child of the body. *)
Definition parentNode (n : nat) (p : page) : bool :=
  existsb (fun e => Nat.eqb (el_id e) n) (body p).

Definition remove (n : nat) (p : page) : page :=
  Page (notificationTimeout p) (filter (fun e => el_id e <> n) (body p))
       (next_el p) (console p).

Definition run_cb (T : Z) (c : callback) (p : page) : page :=
  match c with
  | RemoveNotification n => if parentNode n p then remove n p else p
  end.

Abbreviation world := (Timers.loop callback page).

Definition dq : string := String (ascii_of_nat 34) EmptyString.
Definition nl : string := String (ascii_of_nat 10) EmptyString.

Definition notification_html (message : string) : string :=
  nl +:+ "        " +:+ message +:+ nl +:+
  "        <button type=" +:+ dq +:+ "button" +:+ dq +:+
  " class=" +:+ dq +:+ "btn-close" +:+ dq +:+
  " data-bs-dismiss=" +:+ dq +:+ "alert" +:+ dq +:+ "></button>" +:+ nl +:+ "    ".

Definition notification_node (id : nat) (message type : string) : element :=
  Element id "div"
    ("alert alert-" +:+ type +:+ " alert-dismissible fade show position-fixed")
    "top: 20px; right: 20px; z-index: 1060; min-width: 300px;"
    (notification_html message) "".

Definition appendChild (e : element) (p : page) : page :=
  Page (notificationTimeout p) (body p ++ [e]) (next_el p) (console p).

Definition createElement (p : page) : nat * page :=
  (next_el p, Page (notificationTimeout p) (body p) (S (next_el p)) (console p)).

Definition set_notificationTimeout (h : option positive) (p : page) : page :=
  Page h (body p) (next_el p) (console p).

Definition console_error (msg : string) (p : page) : page :=
  Page (notificationTimeout p) (body p) (next_el p) (console p ++ [msg]).

(** [type] and [duration] are optional arguments with defaults
    ['info'] and [3000].  A timer handle is a positive number, so the
    test [if (notificationTimeout)] asks whether a handle has been stored. *)
Definition showNotification (message : string) (type : option string)
    (duration : option Z) (w : world) : world :=
  let type := default "info" type in
  let duration := default 3000 duration in
  let w1 := if bool_decide (is_Some (notificationTimeout (Timers.st w)))
            then Timers.clearTimeout (notificationTimeout (Timers.st w)) w
            else w in
  let notification := next_el (Timers.st w1) in
  let w2 := Timers.with_st (fun p => snd (createElement p)) w1 in
  let w3 := Timers.with_st (appendChild (notification_node notification message type)) w2 in
  let '(h, w4) := Timers.setTimeout (RemoveNotification notification) duration w3 in
  Timers.with_st (set_notificationTimeout (Some h)) w4.

(** What happens on the page over time: calls of [showNotification] and
    the passing of time. *)
Inductive event :=
| Show (message : string) (type : option string) (duration : option Z)
| Wait (d : Z).

Definition step (w : world) (e : event) : world :=
  match e with
  | Show m t d => showNotification m t d w
  | Wait d => Timers.elapse run_cb d w
  end.

Definition run (es : list event) (w : world) : world := fold_left step es w.

(** The page when the script has just been loaded. *)
Definition fresh (t0 : Z) : world :=
  Timers.Loop t0 1%positive [] (Page None [] 0%nat []).

Definition shown (n : nat) (w : world) : Prop :=
  exists e, e ∈ body (Timers.st w) /\ el_id e = n.

(** The pending timers are tracked by the global: there is at most one,
    and [notificationTimeout] holds its handle. *)
Definition tracked (w : world) : Prop :=
  match Timers.pending w with
  | [] => True
  | [t] => notificationTimeout (Timers.st w) = Some (Timers.tid t)
  | _ => False
  end.

(** Notification [n] is on the page and no pending timer will remove it. *)
Definition stranded (n : nat) (w : world) : Prop :=
  shown n w /\
  (n < next_el (Timers.st w))%nat /\
  forall t, t ∈ Timers.pending w -> Timers.cb t <> RemoveNotification n.

(** The last notification put on the page: its class and its markup. *)
Definition last_toast (w : world) : option (string * string) :=
  match reverse (filter (fun e => tagName e = "div") (body (Timers.st w))) with
  | e :: _ => Some (className e, innerHTML e)
  | [] => None
  end.

Definition toast (message type : string) : string * string :=
  ("alert alert-" +:+ type +:+ " alert-dismissible fade show position-fixed",
   notification_html message).

End Notify.

(** ** debounce (main.js, lines 301-319)

    The closure state of one debounced wrapper: its [timeout] variable,
    and the record of the invocations of the wrapped function (when, and
    with which arguments).  The wrapper invokes the wrapped function as
    its last step, after [timeout] has been updated, so that whether the
    invocation returns or throws leaves the closure state the same.  The
    wrapped function is taken not to call the wrapper itself. *)
Module Debounce.
Section Wrapper.
Context {Args : Type}.
Variable wait : Z.
Variable immediate : bool.

Record closure := Closure {
  timeout : option positive;
  invoked : list (Z * Args)
}.

(** The closure [later] of one call; it holds that call's arguments. *)
Inductive callback := Later (args : Args).

Definition func_apply (T : Z) (args : Args) (c : closure) : closure :=
  Closure (timeout c) (invoked c ++ [(T, args)]).

Definition run_cb (T : Z) (k : callback) (c : closure) : closure :=
  match k with
  | Later args =>
      let c1 := Closure None (invoked c) in
      if negb immediate then func_apply T args c1 else c1
  end.

Definition executedFunction (args : Args)
    (w : Timers.loop callback closure) : Timers.loop callback closure :=
  let callNow := immediate && negb (bool_decide (is_Some (timeout (Timers.st w)))) in
  let w1 := Timers.clearTimeout (timeout (Timers.st w)) w in
  let '(h, w2) := Timers.setTimeout (Later args) wait w1 in
  let w3 := Timers.with_st (fun c => Closure (Some h) (invoked c)) w2 in
  if callNow then Timers.with_st (func_apply (Timers.now w3) args) w3 else w3.

Inductive event :=
| Call (args : Args)
| Wait (d : Z).

Definition step (w : Timers.loop callback closure) (e : event) :=
  match e with
  | Call a => executedFunction a w
  | Wait d => Timers.elapse run_cb d w
  end.

Definition run (es : list event) (w : Timers.loop callback closure) :=
  fold_left step es w.

(** The wrapper as [debounce] returns it: [timeout] undefined. *)
Definition fresh (t0 : Z) (h0 : positive) : Timers.loop callback closure :=
  Timers.Loop t0 h0 [] (Closure None []).

(** A burst: a first call, then further calls, each less than the wait
    interval after the one before it. *)
Fixpoint burst_tail (calls : list (Z * Args)) : list event :=
  match calls with
  | [] => []
  | (gap, a) :: rest => Wait gap :: Call a :: burst_tail rest
  end.

Definition burst (first : Args) (calls : list (Z * Args)) : list event :=
  Call first :: burst_tail calls.

Definition last_args (first : Args) (calls : list (Z * Args)) : Args :=
  List.last (map snd calls) first.

Definition burst_span (calls : list (Z * Args)) : Z :=
  fold_right Z.add 0 (map fst calls).

End Wrapper.
Arguments closure : clear implicits.
Arguments callback : clear implicits.
Arguments event : clear implicits.
End Debounce.

(** ** throttle (main.js, lines 324-335)

    The closure state of one throttled wrapper: its [inThrottle] flag, and
    the record of the invocations of the wrapped function. *)
Module Throttle.
Section Wrapper.
Context {Args : Type}.
Variable limit : Z.

(** The wrapped function is outside the file; what matters of it here is
    whether an invocation returns or throws.  [func_throws t args] says
    that [func], invoked at time [t] with [args], throws.  (The wrapped
    function is taken not to call the wrapper itself.) *)
Variable func_throws : Z -> Args -> bool.

Record closure := Closure {
  inThrottle : bool;
  invoked : list (Z * Args)
}.

(** The arrow function [() => inThrottle = false]. *)
Inductive callback := Release.

Definition run_cb (T : Z) (k : callback) (c : closure) : closure :=
  match k with
  | Release => Closure false (invoked c)
  end.

(** [func.apply] comes first: when it throws, the exception leaves the
    wrapper before [inThrottle] is set and before the timer is created. *)
Definition throttled (args : Args)
    (w : Timers.loop callback closure) : Timers.loop callback closure :=
  if negb (inThrottle (Timers.st w)) then
    let w1 := Timers.with_st (fun c => Closure (inThrottle c) (invoked c ++ [(Timers.now w, args)])) w in
    if func_throws (Timers.now w) args then w1
    else
      let w2 := Timers.with_st (fun c => Closure true (invoked c)) w1 in
      snd (Timers.setTimeout Release limit w2)
  else w.

Inductive event :=
| Call (args : Args)
| Wait (d : Z).

Definition step (w : Timers.loop callback closure) (e : event) :=
  match e with
  | Call a => throttled a w
  | Wait d => Timers.elapse run_cb d w
  end.

Definition run (es : list event) (w : Timers.loop callback closure) :=
  fold_left step es w.

(** The wrapper as [throttle] returns it: [inThrottle] undefined (falsy). *)
Definition fresh (t0 : Z) (h0 : positive) : Timers.loop callback closure :=
  Timers.Loop t0 h0 [] (Closure false []).



End Wrapper.
Arguments closure : clear implicits.
Arguments event : clear implicits.
End Throttle.

(** ** makeRequest (main.js, lines 340-362)

    A promise is modelled by how it settles.  Settling may change the page
    (the [catch] handler shows a notification), so a promise is a function
    from the page to a settled result and the page after it. *)
Module Request.

Inductive error :=
| TypeError (message : string)
| Error (message : string)
| SyntaxError (message : string).

Inductive settled (A : Type) :=
| Fulfilled (a : A)
| Rejected (e : error).
Arguments Fulfilled {A} a.
Arguments Rejected {A} e.

Definition promise (A : Type) : Type := Notify.world -> settled A * Notify.world.

Definition resolve {A} (a : A) : promise A := fun w => (Fulfilled a, w).
Definition throw {A} (e : error) : promise A := fun w => (Rejected e, w).
Definition settle {A} (r : settled A) : promise A := fun w => (r, w).

Definition then_ {A B} (p : promise A) (f : A -> promise B) : promise B :=
  fun w =>
    match p w with
    | (Fulfilled a, w') => f a w'
    | (Rejected e, w') => (Rejected e, w')
    end.

Definition catch_ {A} (p : promise A) (h : error -> promise A) : promise A :=
  fun w =>
    match p w with
    | (Fulfilled a, w') => (Fulfilled a, w')
    | (Rejected e, w') => h e w'
    end.

Definition effect (f : Notify.world -> Notify.world) : promise unit :=
  fun w => (Fulfilled tt, f w).

(** A value of the options object: a string or an object of strings. *)
Inductive value :=
| VStr (s : string)
| VObj (fields : gmap string string).

Definition defaultOptions : gmap string value :=
  <["method" := VStr "GET"]>
    (<["headers" := VObj (<["Content-Type" := "application/json"]> ∅)]> ∅).

Section Fetch.
(** [J] is the type of parsed JSON values.  A response carries its [ok]
    flag, its status and what [response.json()] settles to: the parsed
    body, or nothing when the body is not JSON. *)
Context {J : Type}.

Record response := Response {
  ok : bool;
  status : Z;
  parsed_body : option J
}.

Definition json (r : response) : promise J :=
  match parsed_body r with
  | Some j => resolve j
  | None => throw (SyntaxError "Unexpected token in JSON")
  end.

(** The network: how [fetch] settles for a URL and options; it rejects
    on a network failure and fulfils with a response otherwise. *)
Variable fetch : string -> gmap string value -> settled response.

Definition makeRequest (url : string) (options : option (gmap string value))
    : promise J :=
  let options := default ∅ options in
  let finalOptions := options ∪ defaultOptions in
  catch_
    (then_ (settle (fetch url finalOptions))
       (fun response =>
          if negb (ok response) then
            throw (Error ("HTTP error! status: " +:+ js_string_of_Z (status response)))
          else json response))
    (fun error =>
       then_ (effect (Timers.with_st (Notify.console_error "Request failed:")))
         (fun _ =>
       then_ (effect (Notify.showNotification "Request failed. Please try again."
                        (Some "danger") None))
         (fun _ => throw error))).

End Fetch.
Arguments response : clear implicits.
End Request.

(** ** copyToClipboard and its fallback (main.js, lines 367-403) *)
Module Clipboard.

(** How [navigator.clipboard.writeText] settles. *)
Inductive write_result :=
| WriteOk
| WriteFails (err : string).

(** How [document.execCommand] ends: it returns whether the command was
    carried out, or throws. *)
Inductive exec_result :=
| ExecReturns (successful : bool)
| ExecThrows (err : string).

(** The browser around the page: [clipboard] is [None] where
    [navigator.clipboard] is undefined. *)
Record navigator := Navigator {
  clipboard : option (string -> write_result);
  execCommand : string -> exec_result
}.

Definition textArea_node (id : nat) (text : string) : Notify.element :=
  Notify.Element id "textarea" "" "top: 0px; left: 0px; position: fixed;" "" text.

Definition fallbackCopyTextToClipboard (nav : navigator) (text : string)
    (w : Notify.world) : Notify.world :=
  let textArea := Notify.next_el (Timers.st w) in
  let w1 := Timers.with_st (fun p => snd (Notify.createElement p)) w in
  let w2 := Timers.with_st (Notify.appendChild (textArea_node textArea text)) w1 in
  let w3 :=
    match execCommand nav "copy" with
    | ExecReturns _ =>
        Notify.showNotification "Copied to clipboard!" (Some "success") (Some 2000) w2
    | ExecThrows err =>
        Notify.showNotification "Copy failed. Please copy manually." (Some "warning") None
          (Timers.with_st (Notify.console_error "Fallback copy failed:") w2)
    end in
  Timers.with_st (Notify.remove textArea) w3.

Definition copyToClipboard (nav : navigator) (text : string)
    (w : Notify.world) : Notify.world :=
  match clipboard nav with
  | Some writeText =>
      match writeText text with
      | WriteOk =>
          Notify.showNotification "Copied to clipboard!" (Some "success") (Some 2000) w
      | WriteFails err =>
          fallbackCopyTextToClipboard nav text
            (Timers.with_st (Notify.console_error "Failed to copy:") w)
      end
  | None => fallbackCopyTextToClipboard nav text w
  end.

End Clipboard.

(** ** parseInt

    [parseInt] with no radix argument.  Leading white space is skipped, a
    sign is read, a [0x] or [0X] prefix selects radix 16, and the longest
    prefix of digits of the radix is read as an integer; the result is the
    double nearest to that integer.  [None] is [NaN].

    White space is what ECMAScript calls WhiteSpace and LineTerminator:
    the six ASCII characters and U+00A0, U+1680, U+2000 to U+200A, U+2028,
    U+2029, U+202F, U+205F, U+3000 and U+FEFF, met here in their UTF-8
    encoding of two or three bytes.

    Integers are [Z]: the model covers results up to the largest double;
    beyond it JavaScript gives [Infinity], which has no counterpart
    here. *)
Module ParseInt.

Definition byte (c : ascii) : nat := nat_of_ascii c.

(** White space of one byte: tab, line feed, vertical tab, form feed,
    carriage return and space. *)
Definition is_space (c : ascii) : bool :=
  let n := nat_of_ascii c in
  (Nat.eqb n 9 || Nat.eqb n 10 || Nat.eqb n 11 || Nat.eqb n 12 || Nat.eqb n 13
   || Nat.eqb n 32)%bool.

(** White space of two bytes: U+00A0 (C2 A0). *)
Definition is_space2 (c1 c2 : ascii) : bool :=
  if Nat.eqb (byte c1) 194 then Nat.eqb (byte c2) 160 else false.

(** White space of three bytes: U+1680 (E1 9A 80), U+2000 to U+200A
    (E2 80 80 to E2 80 8A), U+2028 and U+2029 (E2 80 A8, E2 80 A9),
    U+202F (E2 80 AF), U+205F (E2 81 9F), U+3000 (E3 80 80) and U+FEFF
    (EF BB BF). *)
Definition is_space3 (c1 c2 c3 : ascii) : bool :=
  if Nat.eqb (byte c1) 225 then
    (Nat.eqb (byte c2) 154 && Nat.eqb (byte c3) 128)%bool
  else if Nat.eqb (byte c1) 226 then
    ((Nat.eqb (byte c2) 128 &&
      ((Nat.leb 128 (byte c3) && Nat.leb (byte c3) 138) || Nat.eqb (byte c3) 168
       || Nat.eqb (byte c3) 169 || Nat.eqb (byte c3) 175))
     || (Nat.eqb (byte c2) 129 && Nat.eqb (byte c3) 159))%bool
  else if Nat.eqb (byte c1) 227 then
    (Nat.eqb (byte c2) 128 && Nat.eqb (byte c3) 128)%bool
  else if Nat.eqb (byte c1) 239 then
    (Nat.eqb (byte c2) 187 && Nat.eqb (byte c3) 191)%bool
  else false.

Fixpoint trim_start (s : string) : string :=
  match s with
  | String c1 s1 =>
      if is_space c1 then trim_start s1
      else
        match s1 with
        | String c2 s2 =>
            if is_space2 c1 c2 then trim_start s2
            else
              match s2 with
              | String c3 s3 => if is_space3 c1 c2 c3 then trim_start s3 else s
              | EmptyString => s
              end
        | EmptyString => s
        end
  | EmptyString => s
  end.

Definition digit_value (c : ascii) : option Z :=
  let n := Z.of_nat (nat_of_ascii c) in
  if (48 <=? n) && (n <=? 57) then Some (n - 48)
  else if (97 <=? n) && (n <=? 122) then Some (n - 87)
  else if (65 <=? n) && (n <=? 90) then Some (n - 55)
  else None.

Definition digit (radix : Z) (c : ascii) : option Z :=
  match digit_value c with
  | Some d => if d <? radix then Some d else None
  | None => None
  end.

Fixpoint digits (radix : Z) (s : string) (acc : option Z) : option Z :=
  match s with
  | String c s' =>
      match digit radix c with
      | Some d => digits radix s' (Some (radix * default 0 acc + d))
      | None => acc
      end
  | EmptyString => acc
  end.

Definition read_sign (s : string) : Z * string :=
  match s with
  | String "-" s' => (-1, s')
  | String "+" s' => (1, s')
  | _ => (1, s)
  end.

Definition read_radix (s : string) : Z * string :=
  match s with
  | String "0" (String "x" s') => (16, s')
  | String "0" (String "X" s') => (16, s')
  | _ => (10, s)
  end.

(** The double nearest to an integer, ties going to the even mantissa
    of 53 bits. *)
Definition to_double (n : Z) : Z :=
  let a := Z.abs n in
  if a <? 9007199254740992 then n
  else
    let e := Z.log2 a - 52 in
    let q := Z.shiftr a e in
    let r := a - Z.shiftl q e in
    let half := Z.shiftl 1 (e - 1) in
    let q' :=
      if r <? half then q
      else if half <? r then q + 1
      else if Z.even q then q else q + 1 in
    Z.sgn n * Z.shiftl q' e.

Definition parseInt (s : string) : option Z :=
  let '(sign, s1) := read_sign (trim_start s) in
  let '(radix, s2) := read_radix s1 in
  match digits radix s2 None with
  | Some n => Some (to_double (sign * n))
  | None => None
  end.



(** [x || d] for a number [x]: [NaN] and zero are falsy. *)
Definition or_else (x : option Z) (d : Z) : Z :=
  match x with
  | Some n => if n =? 0 then d else n
  | None => d
  end.

End ParseInt.

(** ** setupAutoRefresh (main.js, lines 7 and 41-53)

    The document is the list of its elements in document order, each with
    its attributes.  The repeating timers of the page are the records
    [setInterval] has made; [autoRefreshInterval] is the global of line 7. *)
Module AutoRefresh.

Record node := Node {
  node_id : nat;
  attributes : gmap string string
}.

(** One [setInterval] registration: its handle, its period (the number
    the call was given as its second argument) and the element its
    callback refreshes. *)
Record interval := Interval {
  handle : positive;
  period : Z;
  target : nat
}.

Record env := Env {
  autoRefreshInterval : option positive;
  next_handle : positive;
  intervals : list interval
}.

Definition has_auto_refresh (n : node) : Prop :=
  is_Some (attributes n !! "data-auto-refresh").

Definition querySelectorAll (doc : list node) : list node :=
  filter has_auto_refresh doc.

(** [element.dataset.autoRefresh] converted by [parseInt]; an undefined
    argument gives [NaN]. *)
Definition parsed_period (n : node) : option Z :=
  match attributes n !! "data-auto-refresh" with
  | Some v => ParseInt.parseInt v
  | None => None
  end.

Definition setInterval (element : nat) (delay : Z) (e : env) : positive * env :=
  (next_handle e,
   Env (autoRefreshInterval e) (Pos.succ (next_handle e))
       (intervals e ++ [Interval (next_handle e) delay element])).

Definition setup_one (e : env) (element : node) : env :=
  let interval := ParseInt.or_else (parsed_period element) 30000 in
  snd (setInterval (node_id element) interval e).

Definition setupAutoRefresh (doc : list node) (e : env) : env :=
  fold_left setup_one (querySelectorAll doc) e.

(** The period the specification gives for an attribute value. *)
Definition expected_period (v : string) : Z :=
  match ParseInt.parseInt v with
  | None => 30000
  | Some 0 => 30000
  | Some n => n
  end.

Definition fresh : env := Env None 1%positive [].

(** The picture the specification draws of the auto-refresh timer: the
    live intervals are exactly the one whose handle the global holds. *)
Definition single_handle_tracked (e : env) : Prop :=
  match autoRefreshInterval e with
  | Some h => map handle (intervals e) = [h]
  | None => intervals e = []
  end.

(** The registrations [setupAutoRefresh] is to make for the selected
    elements, in order, with handles counted up from [h]. *)
Fixpoint registrations (h : positive) (selected : list node) : list interval :=
  match selected with
  | [] => []
  | n :: rest =>
      Interval h (expected_period (default "" (attributes n !! "data-auto-refresh")))
               (node_id n)
      :: registrations (Pos.succ h) rest
  end.

End AutoRefresh.

(** ** A page load

    Loading a page gives a fresh root element with the attributes the
    server rendered; local storage is what the last page left. *)
Module PageLoad.

Definition reload (served : gmap string string) (b : Theme.browser) : Theme.browser :=
  Theme.Browser served (Theme.localStorage b).

(** Two browser states agree outside the theme key and the theme attribute. *)
Definition same_elsewhere (b b' : Theme.browser) : Prop :=
  (forall k, k <> Theme.theme_key ->
     Theme.localStorage b' !! k = Theme.localStorage b !! k) /\
  (forall a, a <> Theme.theme_attr ->
     Theme.documentElement b' !! a = Theme.documentElement b !! a).

End PageLoad.

(** ** Predicates on traces of the debounce and throttle wrappers *)
Module Traces.

(** The wrapper's [timeout] variable tracks the timer queue: nothing
    pending and [timeout] null, or one timer pending and [timeout] its
    handle. *)
Definition debounce_tracked {Args : Type}
    (w : Timers.loop (Debounce.callback Args) (Debounce.closure Args)) : Prop :=
  match Timers.pending w with
  | [] => Debounce.timeout (Timers.st w) = None
  | [t] => Debounce.timeout (Timers.st w) = Some (Timers.tid t)
  | _ => False
  end.

(** The arguments of the calls in a trace, in order. *)
Definition debounce_calls {Args : Type} (es : list (Debounce.event Args)) : list Args :=
  omap (fun e => match e with Debounce.Call a => Some a | Debounce.Wait _ => None end) es.

Definition throttle_calls {Args : Type} (es : list (Throttle.event Args)) : list Args :=
  omap (fun e => match e with Throttle.Call a => Some a | Throttle.Wait _ => None end) es.

End Traces.

(** ** showKeyboardShortcuts (main.js, lines 163-171) and the page as a whole

    Everything in the file that puts a notification on the page goes
    through [showNotification]: the shortcut help, the fetch helper and
    the clipboard functions.  A page trace lists such calls and the
    passing of time. *)
Module Page.

(** [Array.prototype.join]. *)
Definition join (sep : string) (l : list string) : string :=
  match l with
  | [] => ""
  | x :: rest => fold_left (fun acc y => acc +:+ sep +:+ y) rest x
  end.

Definition shortcuts : list string :=
  ["Ctrl+S - Save form"; "Escape - Close modal"; "Ctrl+/ - Show shortcuts"].

Definition showKeyboardShortcuts (w : Notify.world) : Notify.world :=
  Notify.showNotification
    ("Keyboard Shortcuts:" +:+ Notify.nl +:+ join Notify.nl shortcuts)
    (Some "info") (Some 5000) w.

Section Trace.
Context {J : Type}.

Inductive event :=
| Notification (message : string) (type : option string) (duration : option Z)
| ShortcutsHelp
| Request (fetch : string -> gmap string Request.value ->
                   Request.settled (Request.response J))
          (url : string) (options : option (gmap string Request.value))
| Copy (nav : Clipboard.navigator) (text : string)
| Wait (d : Z).

Definition step (w : Notify.world) (e : event) : Notify.world :=
  match e with
  | Notification m t d => Notify.showNotification m t d w
  | ShortcutsHelp => showKeyboardShortcuts w
  | Request fetch url options => snd (Request.makeRequest fetch url options w)
  | Copy nav text => Clipboard.copyToClipboard nav text w
  | Wait d => Timers.elapse Notify.run_cb d w
  end.

Definition run (es : list event) (w : Notify.world) : Notify.world :=
  fold_left step es w.

End Trace.
Arguments event : clear implicits.

(** The nodes on the page are notifications made earlier: each is a
    [div] whose identity is below the next one to be handed out. *)
Definition only_toasts (w : Notify.world) : Prop :=
  forall e, e ∈ Notify.body (Timers.st w) ->
    (Notify.el_id e < Notify.next_el (Timers.st w))%nat /\ Notify.tagName e = "div".

(** No two nodes on the page share an identity. *)
Definition distinct (w : Notify.world) : Prop :=
  NoDup (Notify.el_id <$> Notify.body (Timers.st w)).

End Page.

(** ** refreshElement and the auto-refresh tick (main.js, lines 47-51 and 58-65)

    The page state here is [element.style.opacity] of each element (no
    entry: never set).  [refreshElement] dims the element and sets a timer
    that restores it; the interval callback of [setupAutoRefresh] calls it
    while the document is visible. *)
Module Refresh.

(** The closure [() => element.style.opacity = '1']. *)
Inductive callback := RestoreOpacity (element : nat).

Definition run_cb (T : Z) (c : callback) (opacity : gmap nat string) : gmap nat string :=
  match c with
  | RestoreOpacity element => <[element := "1"]> opacity
  end.

Abbreviation world := (Timers.loop callback (gmap nat string)).

Definition refreshElement (element : nat) (w : world) : world :=
  let w1 := Timers.with_st (fun opacity => <[element := "0.7"]> opacity) w in
  snd (Timers.setTimeout (RestoreOpacity element) 500 w1).

Definition interval_callback (visibilityState : string) (element : nat) (w : world) : world :=
  if String.eqb visibilityState "visible" then refreshElement element w else w.

Inductive event :=
| Tick (visibilityState : string) (element : nat)
| Wait (d : Z).

Definition step (w : world) (e : event) : world :=
  match e with
  | Tick v element => interval_callback v element w
  | Wait d => Timers.elapse run_cb d w
  end.

Definition run (es : list event) (w : world) : world := fold_left step es w.

Definition fresh (t0 : Z) (h0 : positive) : world := Timers.Loop t0 h0 [] ∅.

(** Every dimmed element has its restoring timer pending, and every
    pending timer is due within 500 ms. *)
Definition settling (w : world) : Prop :=
  (forall t, t ∈ Timers.pending w -> Timers.due t <= Timers.now w + 500) /\
  (forall element v, Timers.st w !! element = Some v ->
     v = "1" \/
     exists t, t ∈ Timers.pending w /\ Timers.cb t = RestoreOpacity element).

End Refresh.

(** ** updateTimestamps and setupLiveTimestamps (main.js, lines 176-197)

    [parseInt] may give [NaN], so the difference handed to
    [formatTimeDifference] is a number that may be [NaN] ([None]):
    arithmetic on [NaN] gives [NaN] and every comparison with it is
    false.  The numbers are safe integers, as the clock and the
    timestamps of a page are.

    What [updateTimestamps] does to the page is a sequence of assignments
    to [textContent], one per selected element.  What an assignment does
    to the tree (the children of the element are replaced by one text
    node, and its ancestors report another text) is the browser's and is
    not part of the model: the model records the assignments. *)
Module Timestamps.

Definition floor_div (x : option Z) (k : Z) : option Z :=
  match x with
  | Some v => Some (v / k)
  | None => None
  end.

Definition gt0 (x : option Z) : bool :=
  match x with
  | Some v => 0 <? v
  | None => false
  end.

(** [x !== 1]. *)
Definition not_one (x : option Z) : bool :=
  match x with
  | Some v => negb (v =? 1)
  | None => true
  end.

Definition to_string (x : option Z) : string :=
  match x with
  | Some v => js_string_of_Z v
  | None => "NaN"
  end.

(** [formatTimeDifference] on a number that may be [NaN]. *)
Definition formatTimeDifference_num (diff : option Z) : string :=
  let seconds := floor_div diff 1000 in
  let minutes := floor_div seconds 60 in
  let hours := floor_div minutes 60 in
  let days := floor_div hours 24 in
  if gt0 days then
    to_string days +:+ " day" +:+ (if not_one days then "s" else "") +:+ " ago"
  else if gt0 hours then
    to_string hours +:+ " hour" +:+ (if not_one hours then "s" else "") +:+ " ago"
  else if gt0 minutes then
    to_string minutes +:+ " minute" +:+ (if not_one minutes then "s" else "") +:+ " ago"
  else "Just now".

Record node := Node {
  node_id : nat;
  attributes : gmap string string
}.

(** [document.querySelectorAll('[data-timestamp]')]: a static list, in
    document order. *)
Definition querySelectorAll (doc : list node) : list node :=
  filter (fun n => is_Some (attributes n !! "data-timestamp")) doc.

(** [Date.now() - parseInt(element.dataset.timestamp)]; [parseInt] of an
    undefined argument is [NaN]. *)
Definition difference (now : Z) (timestamp : option string) : option Z :=
  match timestamp ≫= ParseInt.parseInt with
  | Some t => Some (now - t)
  | None => None
  end.

(** One assignment [element.textContent = text]. *)
Record assignment := Assign {
  target : nat;
  text : string
}.

(** The [forEach] of [updateTimestamps] over the selected elements;
    [clock k] is what [Date.now()] returns in the iteration for the
    [k]-th of them. *)
Fixpoint update_from (clock : nat -> Z) (k : nat) (timestamps : list node)
    : list assignment :=
  match timestamps with
  | [] => []
  | element :: rest =>
      let timestamp := attributes element !! "data-timestamp" in
      let diff := difference (clock k) timestamp in
      Assign (node_id element) (formatTimeDifference_num diff)
      :: update_from clock (S k) rest
  end.

Definition updateTimestamps (clock : nat -> Z) (doc : list node) : list assignment :=
  update_from clock 0 (querySelectorAll doc).

(** [setupLiveTimestamps]: the period of the interval it creates, if any. *)
Definition setupLiveTimestamps (doc : list node) : option Z :=
  let timestamps := querySelectorAll doc in
  if (0 <? length timestamps)%nat then Some 60000 else None.

(** The text the code gives an element with timestamp attribute [ts]
    when the clock reads [now]. *)
Definition label (now : Z) (ts : string) : string :=
  match ParseInt.parseInt ts with
  | None => "Just now"
  | Some t =>
      if now - t <? 60000 then "Just now" else TimeDiff.formatTimeDifference (now - t)
  end.

End Timestamps.

(** ** The keyboard shortcuts (main.js, lines 132-158) *)
Module Shortcuts.

Record keydown := Keydown {
  ctrlKey : bool;
  metaKey : bool;
  key : string
}.

(** What the handler finds in the document: the first submit button of a
    form, if any, and the open modal, if any, with what
    [bootstrap.Modal.getInstance] gives for it (an instance or null). *)
Record document := Document {
  submitBtn : option nat;
  openModal : option (option nat)
}.

Record outcome := Outcome {
  defaultPrevented : bool;
  clicked : option nat;
  hidden : option nat;
  page : Notify.world
}.

Definition save_shortcut (e : keydown) (doc : document) (o : outcome) : outcome :=
  if (ctrlKey e || metaKey e) && String.eqb (key e) "s" then
    match submitBtn doc with
    | Some btn => Outcome true (Some btn) (hidden o) (page o)
    | None => o
    end
  else o.

(** [modal.hide()] on a null instance throws: [None]. *)
Definition escape_shortcut (e : keydown) (doc : document) (o : outcome) : option outcome :=
  if String.eqb (key e) "Escape" then
    match openModal doc with
    | Some (Some modal) => Some (Outcome (defaultPrevented o) (clicked o) (Some modal) (page o))
    | Some None => None
    | None => Some o
    end
  else Some o.

Definition help_shortcut (e : keydown) (o : outcome) : outcome :=
  if (ctrlKey e || metaKey e) && String.eqb (key e) "/" then
    Outcome true (clicked o) (hidden o) (Page.showKeyboardShortcuts (page o))
  else o.

Definition on_keydown (e : keydown) (doc : document) (w : Notify.world) : option outcome :=
  let o1 := save_shortcut e doc (Outcome false None None w) in
  match escape_shortcut e doc o1 with
  | Some o2 => Some (help_shortcut e o2)
  | None => None
  end.

End Shortcuts.

(** ** Form validation (main.js, lines 70-127)

    The document is a store of nodes by identity.  A node removed from its
    parent stays a node: it only loses its place.  The two selector
    queries the code makes are the browser's; they are parameters here:
    [select_required d form] is [form.querySelectorAll('[required]')] and
    [select_feedback d el] is [el.querySelector('.invalid-feedback')]. *)
Module Forms.

(** A value the code counts as empty: nothing but white space, so that
    skipping white space from the start leaves nothing. *)
Definition blank (s : string) : bool :=
  String.eqb (ParseInt.trim_start s) "".

(** [String.prototype.trim]: white space, as [parseInt] skips it, leaves
    both ends.  The end is cut where the rest of the string is white
    space only. *)
Fixpoint trim_end (s : string) : string :=
  match s with
  | EmptyString => EmptyString
  | String c s' => if blank s then EmptyString else String c (trim_end s')
  end.

Definition trim (s : string) : string := trim_end (ParseInt.trim_start s).

(** [value] is the string the element's [value] property holds; [None]
    is an element without one (a [div], say, whose [value] is
    undefined), on which [field.value.trim()] throws a TypeError.
    [childNodes] lists the elements that are children of the node. *)
Record dnode := DNode {
  classList : list string;
  value : option string;
  textContent : string;
  parentNode : option nat;
  childNodes : list nat
}.

Definition classList_add (token : string) (n : dnode) : dnode :=
  DNode (if decide (token ∈ classList n) then classList n else classList n ++ [token])
        (value n) (textContent n) (parentNode n) (childNodes n).

Definition classList_remove (token : string) (n : dnode) : dnode :=
  DNode (filter (fun c => c <> token) (classList n))
        (value n) (textContent n) (parentNode n) (childNodes n).

Definition set_parentNode (p : option nat) (n : dnode) : dnode :=
  DNode (classList n) (value n) (textContent n) p (childNodes n).

Definition set_childNodes (cs : list nat) (n : dnode) : dnode :=
  DNode (classList n) (value n) (textContent n) (parentNode n) cs.

(** [node.remove()]: the node leaves its parent's children; a node
    without a parent stays as it is. *)
Definition remove (n : nat) (d : gmap nat dnode) : gmap nat dnode :=
  match d !! n with
  | Some nd =>
      match parentNode nd with
      | Some p =>
          alter (set_parentNode None) n
            (alter (fun pn => set_childNodes (filter (fun c => c <> n) (childNodes pn)) pn) p d)
      | None => d
      end
  | None => d
  end.

(** [parent.appendChild(child)] for a child that has no parent yet. *)
Definition appendChild (parent child : nat) (d : gmap nat dnode) : gmap nat dnode :=
  alter (set_parentNode (Some parent)) child
    (alter (fun pn => set_childNodes (childNodes pn ++ [child]) pn) parent d).

Section Selectors.
Variable select_required : gmap nat dnode -> nat -> list nat.
Variable select_feedback : gmap nat dnode -> nat -> option nat.

(** [None] is a thrown TypeError: [field.parentNode] is null where the
    code calls a method on it, or [field.value] is not a string where the
    code calls [trim] on it. *)
Definition clearFieldError (field : nat) (d : gmap nat dnode) : option (gmap nat dnode) :=
  nd ← d !! field;
  let d1 := <[field := classList_remove "is-invalid" nd]> d in
  parent ← parentNode nd;
  match select_feedback d1 parent with
  | Some errorDiv => Some (remove errorDiv d1)
  | None => Some d1
  end.

Definition showFieldError (field : nat) (message : string) (d : gmap nat dnode)
    : option (gmap nat dnode) :=
  d1 ← clearFieldError field d;
  nd ← d1 !! field;
  let d2 := <[field := classList_add "is-invalid" nd]> d1 in
  let errorDiv := fresh (dom d2) in
  let d3 := <[errorDiv := DNode ["invalid-feedback"] None message None []]> d2 in
  parent ← parentNode nd;
  Some (appendChild parent errorDiv d3).

(** One round of the [forEach] in [validateForm]. *)
Definition validate_field (acc : option (bool * gmap nat dnode)) (field : nat)
    : option (bool * gmap nat dnode) :=
  s ← acc;
  nd ← snd s !! field;
  v ← value nd;
  if String.eqb (trim v) "" then
    d' ← showFieldError field "This field is required" (snd s);
    Some (false, d')
  else
    d' ← clearFieldError field (snd s);
    Some (fst s, d').

Definition validateForm (form : nat) (d : gmap nat dnode) : option (bool * gmap nat dnode) :=
  let requiredFields := select_required d form in
  fold_left validate_field requiredFields (Some (true, d)).

(** The submit listener of [setupFormValidation]: whether it called
    [preventDefault] and [stopPropagation], and the document after. *)
Definition on_submit (form : nat) (d : gmap nat dnode) : option (bool * gmap nat dnode) :=
  s ← validateForm form d;
  Some (negb (fst s), snd s).

End Selectors.

(** A field the code can validate: it is in the document, has a string
    value and a parent, has no element inside it (an [input] has none),
    so that no change to the document changes its value, and is not
    itself an error message. *)
Definition field_ok (d : gmap nat dnode) (field : nat) : Prop :=
  exists nd v p, d !! field = Some nd /\ value nd = Some v /\ parentNode nd = Some p /\
                 childNodes nd = [] /\ "invalid-feedback" ∉ classList nd.

(** What the validation reads of a node and must not lose: its class
    list, its value and its parent. *)
Definition core (d : gmap nat dnode) (f : nat)
    : option (list string * option string * option nat) :=
  (fun nd => (classList nd, value nd, parentNode nd)) <$> d !! f.

Definition field_value (d : gmap nat dnode) (f : nat) : string :=
  default "" (d !! f ≫= value).

(** The fields of [L] are in the document with a string value and a
    parent, and none of them is an error message. *)
Definition guarded (d : gmap nat dnode) (L : list nat) : Prop :=
  forall f, f ∈ L ->
    exists cl v p, core d f = Some (cl, Some v, Some p) /\ "invalid-feedback" ∉ cl.

(** Field [f] is marked invalid exactly when its value is blank. *)
Definition marked (d : gmap nat dnode) (f : nat) : Prop :=
  forall cl v p, core d f = Some (cl, Some v, p) -> ("is-invalid" ∈ cl <-> blank v = true).

(** The selector for error messages only returns nodes of the document
    that carry the class. *)
Definition feedback_sound (select_feedback : gmap nat dnode -> nat -> option nat) : Prop :=
  forall d el e, select_feedback d el = Some e ->
    exists nd, d !! e = Some nd /\ "invalid-feedback" ∈ classList nd.

End Forms.

(** * Properties *)

(** ** Duration formatting *)

Lemma floor_units (diff : Z) :
  diff / 1000 / 60 = diff / 60000 /\
  diff / 1000 / 60 / 60 = diff / 3600000 /\
  diff / 1000 / 60 / 60 / 24 = diff / 86400000.
Proof.
  repeat split; repeat (rewrite Z.div_div by lia); reflexivity.
Qed.

Lemma plural_suffix (n : Z) :
  (if negb (n =? 1) then "s" else "") = (if decide (n = 1) then "" else "s").
Proof.
  destruct (Z.eqb_spec n 1); destruct (decide (n = 1)); simpl; congruence.
Qed.

(** C1: for a non-negative difference in milliseconds (a safe integer, as
    every difference of two clock readings is) the boundary values
    0 ms and 59 s give "Just now", 60 s gives "1 minute ago", 3600 s gives
    "1 hour ago" and 86400 s gives "1 day ago"; in general the largest of
    days, hours, minutes whose count is positive is used, with an "s"
    exactly when the count is not one. *)
Theorem formatTimeDifference_units (diff : Z) (Hdiff : 0 <= diff)
    (Hsafe : safe_integer diff) :
  (TimeDiff.formatTimeDifference 0 = "Just now" /\
   TimeDiff.formatTimeDifference 59000 = "Just now" /\
   TimeDiff.formatTimeDifference 60000 = "1 minute ago" /\
   TimeDiff.formatTimeDifference 3600000 = "1 hour ago" /\
   TimeDiff.formatTimeDifference 86400000 = "1 day ago") /\
  (diff < 60000 -> TimeDiff.formatTimeDifference diff = "Just now") /\
  (60000 <= diff < 3600000 ->
     TimeDiff.formatTimeDifference diff = TimeDiff.phrase (diff / 60000) "minute") /\
  (3600000 <= diff < 86400000 ->
     TimeDiff.formatTimeDifference diff = TimeDiff.phrase (diff / 3600000) "hour") /\
  (86400000 <= diff ->
     TimeDiff.formatTimeDifference diff = TimeDiff.phrase (diff / 86400000) "day").
Proof.
  split; [repeat split; reflexivity|].
  destruct (floor_units diff) as (Hm & Hh & Hd).
  unfold TimeDiff.formatTimeDifference, TimeDiff.phrase.
  cbv zeta. rewrite Hd, Hh, Hm. rewrite !plural_suffix.
  repeat split; intros Hrange.
  - assert (diff / 86400000 = 0) as -> by (apply Z.div_small; lia).
    assert (diff / 3600000 = 0) as -> by (apply Z.div_small; lia).
    assert (diff / 60000 = 0) as -> by (apply Z.div_small; lia).
    reflexivity.
  - assert (diff / 86400000 = 0) as -> by (apply Z.div_small; lia).
    assert (diff / 3600000 = 0) as -> by (apply Z.div_small; lia).
    assert (0 < diff / 60000) by (apply Z.div_str_pos; lia).
    destruct (Z.ltb_spec 0 (diff / 60000)); [|lia]. reflexivity.
  - assert (diff / 86400000 = 0) as -> by (apply Z.div_small; lia).
    assert (0 < diff / 3600000) by (apply Z.div_str_pos; lia).
    destruct (Z.ltb_spec 0 (diff / 3600000)); [|lia]. reflexivity.
  - assert (0 < diff / 86400000) by (apply Z.div_str_pos; lia).
    destruct (Z.ltb_spec 0 (diff / 86400000)); [|lia]. reflexivity.
Qed.

Lemma formatTimeDifference_units_witness :
  0 <= 7200000 /\ TimeDiff.formatTimeDifference 7200000 = "2 hours ago".
Proof.
  split; [lia|].
  destruct (formatTimeDifference_units 7200000 ltac:(lia) ltac:(unfold safe_integer; lia))
    as (_ & _ & _ & Hh & _).
  rewrite Hh by lia. reflexivity.
Defined.

(** ** Theme preference *)

Lemma setTheme_lookup (theme : string) (b : Theme.browser) :
  Theme.localStorage (Theme.setTheme theme b) !! Theme.theme_key = Some theme /\
  Theme.documentElement (Theme.setTheme theme b) !! Theme.theme_attr = Some theme.
Proof.
  unfold Theme.setTheme; simpl. split; apply lookup_insert_eq.
Qed.

Lemma mirrored_setTheme (theme : string) (b : Theme.browser) :
  Theme.mirrored_token (Theme.setTheme theme b) <-> theme = "light" \/ theme = "dark".
Proof.
  destruct (setTheme_lookup theme b) as [Hs Ha].
  split.
  - intros (v & Hv & Hs' & _). rewrite Hs in Hs'. by simplify_eq.
  - intros Hv. exists theme. auto.
Qed.

Lemma toggleTheme_cases (b : Theme.browser) :
  Theme.toggleTheme b =
    Theme.setTheme
      (if decide (Theme.documentElement b !! Theme.theme_attr = Some "dark")
       then "light" else "dark") b.
Proof. reflexivity. Qed.

(** C4, as stated, fails: [setTheme] stores whatever string it is given. *)
Lemma theme_token_counterexample :
  exists b : Theme.browser,
    Theme.localStorage (Theme.setTheme "blue" b) !! Theme.theme_key = Some "blue" /\
    ~ Theme.mirrored_token (Theme.setTheme "blue" b).
Proof.
  exists (Theme.Browser ∅ ∅). split; [reflexivity|].
  rewrite mirrored_setTheme. intros [H|H]; discriminate H.
Qed.

(** C4, amended: after [setTheme theme] local storage under "cms-theme" and
    the root element's data-theme attribute both hold [theme], whatever it
    is, and it is one of the two tokens exactly when [theme] is; after
    [toggleTheme] both hold the same one of "light" and "dark";
    [initializeTheme] mirrors a stored non-empty value onto the attribute
    and leaves the stored value as it is, and changes nothing when nothing
    or the empty string is stored. *)
Theorem theme_storage_mirrors_attribute (b : Theme.browser) (theme : string) :
  (Theme.localStorage (Theme.setTheme theme b) !! Theme.theme_key = Some theme /\
   Theme.documentElement (Theme.setTheme theme b) !! Theme.theme_attr = Some theme) /\
  (Theme.mirrored_token (Theme.setTheme theme b) <-> theme = "light" \/ theme = "dark") /\
  Theme.mirrored_token (Theme.toggleTheme b) /\
  match Theme.localStorage b !! Theme.theme_key with
  | Some saved =>
      if decide (saved = "") then Theme.initializeTheme b = b
      else Theme.localStorage (Theme.initializeTheme b) !! Theme.theme_key = Some saved /\
           Theme.documentElement (Theme.initializeTheme b) !! Theme.theme_attr = Some saved
  | None => Theme.initializeTheme b = b
  end.
Proof.
  split; [apply setTheme_lookup|].
  split; [apply mirrored_setTheme|].
  split.
  - rewrite toggleTheme_cases. apply mirrored_setTheme.
    case_decide; auto.
  - unfold Theme.initializeTheme. cbv zeta.
    destruct (Theme.localStorage b !! Theme.theme_key) as [saved|] eqn:Hsaved; simpl; [|done].
    destruct (String.eqb_spec saved ""); case_decide; simpl; try done.
    apply setTheme_lookup.
Qed.

(** C5: when the root element's data-theme is "light" or "dark",
    [toggleTheme] puts the opposite value on the attribute and in local
    storage under "cms-theme", and a second [toggleTheme] brings back the
    original value on both. *)
Theorem toggleTheme_flips_and_persists (b : Theme.browser) (v : string)
    (Hv : v = "light" \/ v = "dark")
    (Hattr : Theme.documentElement b !! Theme.theme_attr = Some v) :
  let opposite := if decide (v = "dark") then "light" else "dark" in
  let b1 := Theme.toggleTheme b in
  let b2 := Theme.toggleTheme b1 in
  opposite <> v /\
  Theme.documentElement b1 !! Theme.theme_attr = Some opposite /\
  Theme.localStorage b1 !! Theme.theme_key = Some opposite /\
  Theme.documentElement b2 !! Theme.theme_attr = Some v /\
  Theme.localStorage b2 !! Theme.theme_key = Some v.
Proof.
  intros opposite b1 b2.
  assert (Hb1 : b1 = Theme.setTheme opposite b).
  { subst b1 opposite. rewrite toggleTheme_cases, Hattr.
    destruct Hv as [-> | ->]; reflexivity. }
  assert (Hb2 : b2 = Theme.setTheme v b1).
  { subst b2. rewrite toggleTheme_cases.
    destruct (setTheme_lookup opposite b) as [_ Ha]. rewrite <- Hb1 in Ha. rewrite Ha.
    subst opposite. destruct Hv as [-> | ->]; reflexivity. }
  split; [subst opposite; destruct Hv as [-> | ->]; simpl; discriminate|].
  rewrite Hb2, Hb1.
  destruct (setTheme_lookup opposite b) as [Hs Ha].
  destruct (setTheme_lookup v (Theme.setTheme opposite b)) as [Hs' Ha'].
  auto.
Qed.

Lemma toggleTheme_flips_and_persists_witness :
  let b := Theme.setTheme "dark" (Theme.Browser ∅ ∅) in
  Theme.documentElement (Theme.toggleTheme b) !! Theme.theme_attr = Some "light" /\
  Theme.localStorage (Theme.toggleTheme (Theme.toggleTheme b)) !! Theme.theme_key = Some "dark".
Proof.
  pose proof (toggleTheme_flips_and_persists
    (Theme.setTheme "dark" (Theme.Browser ∅ ∅)) "dark" (or_intror eq_refl)
    (proj2 (setTheme_lookup "dark" (Theme.Browser ∅ ∅)))) as H.
  cbv zeta in H. destruct H as (_ & H1 & _ & _ & H4).
  split; [exact H1 | exact H4].
Defined.

(** ** The timer queue *)

Lemma delay_ms_nonneg (delay : Z) : 0 <= Timers.delay_ms delay.
Proof. unfold Timers.delay_ms. lia. Qed.

Lemma delay_ms_in_range (delay : Z) :
  Timers.in_range delay -> Timers.delay_ms delay = Z.max 0 delay.
Proof.
  unfold Timers.in_range, Timers.delay_ms, Timers.to_int32. intros Hr.
  rewrite Z.mod_small by lia. lia.
Qed.

Section QueueFacts.
Context {Cb St : Type}.
Variable run_cb : Z -> Cb -> St -> St.

Lemma elem_of_enqueue (t u : Timers.timer Cb) (q : list (Timers.timer Cb)) :
  u ∈ Timers.enqueue t q <-> u = t \/ u ∈ q.
Proof.
  induction q as [|x q IH]; simpl.
  - rewrite list_elem_of_singleton, elem_of_nil. tauto.
  - destruct (Timers.due t <? Timers.due x).
    + apply elem_of_cons.
    + rewrite !elem_of_cons, IH. tauto.
Qed.

(** Firing keeps a property of the state that every pending callback keeps,
    and leaves only timers that were pending. *)
Lemma fire_preserves (P : St -> Prop) (T : Z) (q : list (Timers.timer Cb)) (s : St) :
  (forall t s', t ∈ q -> P s' -> P (run_cb (Timers.due t) (Timers.cb t) s')) ->
  P s ->
  P (snd (Timers.fire run_cb T q s)) /\
  (forall t, t ∈ fst (Timers.fire run_cb T q s) -> t ∈ q).
Proof.
  revert s. induction q as [|t q IH]; intros s Hcb Hs; simpl.
  - split; [exact Hs | auto].
  - destruct (Timers.due t <=? T); simpl.
    + destruct (IH (run_cb (Timers.due t) (Timers.cb t) s)) as [HP Hin].
      * intros u s' Hu. apply Hcb. by apply elem_of_cons; right.
      * apply Hcb; [by apply elem_of_cons; left | exact Hs].
      * split; [exact HP | intros u Hu; apply elem_of_cons; right; by apply Hin].
    + split; [exact Hs | auto].
Qed.

End QueueFacts.

(** ** Notifications *)

Lemma run_cb_notificationTimeout (T : Z) (c : Notify.callback) (p : Notify.page) :
  Notify.notificationTimeout (Notify.run_cb T c p) = Notify.notificationTimeout p.
Proof.
  destruct c as [n]; simpl. destruct (Notify.parentNode n p); reflexivity.
Qed.

Lemma showNotification_pending (m : string) (ty : option string) (dur : option Z)
    (w : Notify.world) :
  Notify.tracked w ->
  let w' := Notify.showNotification m ty dur w in
  Timers.pending w' =
    [Timers.Timer (Timers.next_id w) (Timers.now w + Timers.delay_ms (default 3000 dur))
       (Notify.RemoveNotification (Notify.next_el (Timers.st w)))] /\
  Notify.notificationTimeout (Timers.st w') = Some (Timers.next_id w).
Proof.
  destruct w as [t0 h q [nt bd ne cs]].
  unfold Notify.tracked, Notify.showNotification; simpl.
  intros Htr.
  destruct nt as [h'|]; simpl.
  - destruct q as [|t [|u q]]; simpl in *; try done.
    simplify_eq. rewrite filter_cons, filter_nil.
    rewrite decide_False by (intros Hne; by apply Hne). done.
  - destruct q as [|t [|u q]]; simpl in *; done.
Qed.

Lemma tracked_showNotification (m : string) (ty : option string) (dur : option Z)
    (w : Notify.world) :
  Notify.tracked w -> Notify.tracked (Notify.showNotification m ty dur w).
Proof.
  intros Htr. destruct (showNotification_pending m ty dur w Htr) as [Hq Hh].
  unfold Notify.tracked. rewrite Hq. exact Hh.
Qed.

Lemma tracked_elapse (d : Z) (w : Notify.world) :
  Notify.tracked w -> Notify.tracked (Timers.elapse Notify.run_cb d w).
Proof.
  destruct w as [t0 h q p]. unfold Notify.tracked, Timers.elapse; simpl.
  destruct q as [|t [|u q]]; simpl; try done.
  intros Htr. destruct (Timers.due t <=? t0 + Z.max 0 d); simpl; done.
Qed.

Lemma tracked_run (es : list Notify.event) (w : Notify.world) :
  Notify.tracked w -> Notify.tracked (Notify.run es w).
Proof.
  revert w. induction es as [|e es IH]; intros w Hw; simpl; [exact Hw|].
  apply IH. destruct e; simpl.
  - by apply tracked_showNotification.
  - by apply tracked_elapse.
Qed.

Lemma tracked_pending (w : Notify.world) :
  Notify.tracked w ->
  (length (Timers.pending w) <= 1)%nat /\
  (forall t, t ∈ Timers.pending w ->
     Notify.notificationTimeout (Timers.st w) = Some (Timers.tid t)).
Proof.
  unfold Notify.tracked. destruct (Timers.pending w) as [|t [|u q]]; simpl; try done.
  - split; [lia | intros t Ht; by apply elem_of_nil in Ht].
  - intros Ht. split; [lia | intros u Hu]. apply list_elem_of_singleton in Hu. by subst.
Qed.

Lemma run_cb_keeps (n : nat) (T : Z) (c : Notify.callback) (p : Notify.page) :
  c <> Notify.RemoveNotification n ->
  (exists e, e ∈ Notify.body p /\ Notify.el_id e = n) /\ (n < Notify.next_el p)%nat ->
  (exists e, e ∈ Notify.body (Notify.run_cb T c p) /\ Notify.el_id e = n) /\
  (n < Notify.next_el (Notify.run_cb T c p))%nat.
Proof.
  intros Hc [(e & He & Hid) Hlt]. destruct c as [n']; simpl.
  destruct (Notify.parentNode n' p); simpl; [|eauto].
  split; [|exact Hlt]. exists e. split; [|exact Hid].
  apply list_elem_of_filter. split; [|exact He].
  intros Heq. apply Hc. congruence.
Qed.

Lemma stranded_showNotification (n : nat) (m : string) (ty : option string)
    (dur : option Z) (w : Notify.world) :
  Notify.stranded n w -> Notify.stranded n (Notify.showNotification m ty dur w).
Proof.
  destruct w as [t0 h q [nt bd ne cs]].
  unfold Notify.stranded, Notify.shown, Notify.showNotification; simpl.
  intros ((e & He & Hid) & Hlt & Hq).
  assert (Hnew : forall (q' : list (Timers.timer Notify.callback)) t d,
            (forall u, u ∈ q' -> u ∈ q) ->
            t ∈ Timers.enqueue (Timers.Timer h d (Notify.RemoveNotification ne)) q' ->
            Timers.cb t <> Notify.RemoveNotification n).
  { intros q' t d Hsub Ht. apply elem_of_enqueue in Ht as [-> | Ht]; simpl.
    - intros Heq. injection Heq as Heq. lia.
    - apply Hq, Hsub, Ht. }
  destruct nt as [h'|]; simpl.
  - split; [exists e; split; [apply elem_of_app; by left | exact Hid]|].
    split; [lia|]. intros t Ht. eapply Hnew; [|exact Ht].
    intros u Hu. by apply list_elem_of_filter in Hu as [_ Hu].
  - split; [exists e; split; [apply elem_of_app; by left | exact Hid]|].
    split; [lia|]. intros t Ht. eapply Hnew; [|exact Ht]. auto.
Qed.

Lemma stranded_elapse (n : nat) (d : Z) (w : Notify.world) :
  Notify.stranded n w -> Notify.stranded n (Timers.elapse Notify.run_cb d w).
Proof.
  destruct w as [t0 h q p].
  unfold Notify.stranded, Notify.shown, Timers.elapse; simpl.
  intros (Hshown & Hlt & Hq).
  destruct (fire_preserves Notify.run_cb
              (fun p => (exists e, e ∈ Notify.body p /\ Notify.el_id e = n) /\
                        (n < Notify.next_el p)%nat)
              (t0 + Z.max 0 d) q p) as [[Hs Hl] Hin].
  - intros t s' Ht. apply run_cb_keeps. by apply Hq.
  - by split.
  - destruct (Timers.fire Notify.run_cb (t0 + Z.max 0 d) q p) as [q' p']; simpl in *.
    split; [exact Hs|]. split; [exact Hl|]. intros t Ht. by apply Hq, Hin.
Qed.

Lemma stranded_run (n : nat) (es : list Notify.event) (w : Notify.world) :
  Notify.stranded n w -> Notify.stranded n (Notify.run es w).
Proof.
  revert w. induction es as [|e es IH]; intros w Hw; simpl; [exact Hw|].
  apply IH. destruct e; simpl.
  - by apply stranded_showNotification.
  - by apply stranded_elapse.
Qed.

(** A second notification shown before the first one's timeout strands
    the first: its timer is cleared and nothing else removes it. *)
Lemma second_call_strands_first (m1 m2 : string) (ty1 ty2 : option string)
    (d1 d2 : option Z) (gap t0 : Z) :
  t0 + Z.max 0 gap < t0 + Timers.delay_ms (default 3000 d1) ->
  Notify.stranded 0
    (Notify.run [Notify.Show m1 ty1 d1; Notify.Wait gap; Notify.Show m2 ty2 d2]
       (Notify.fresh t0)).
Proof.
  intros Hgap. unfold Notify.run, Notify.fresh; simpl.
  unfold Notify.showNotification at 2; simpl.
  unfold Timers.elapse; simpl.
  destruct (Z.leb_spec (t0 + Timers.delay_ms (default 3000 d1)) (t0 + Z.max 0 gap)); [lia|].
  unfold Notify.showNotification; simpl.
  unfold Notify.stranded, Notify.shown; simpl.
  split; [eexists; split; [apply elem_of_cons; left; reflexivity | reflexivity]|].
  split; [lia|].
  intros t Ht. apply list_elem_of_singleton in Ht as ->. simpl. discriminate.
Qed.

Lemma run_app (es1 es2 : list Notify.event) (w : Notify.world) :
  Notify.run (es1 ++ es2) w = Notify.run es2 (Notify.run es1 w).
Proof. apply fold_left_app. Qed.

(** C3: a notification that is shown alone is removed once its timeout
    has passed; but when a second notification is shown while the first
    one's removal is still pending, the first one stays on the page
    through every later call and every later passing of time.  Here the
    first notification (node 0, timeout 3000 ms) is followed by a second
    one after 1000 ms. *)
Theorem earlier_notification_never_dismissed (es : list Notify.event) :
  Notify.body (Timers.st
    (Notify.run [Notify.Show "first" None None; Notify.Wait 3000] (Notify.fresh 0))) = [] /\
  Notify.shown 0
    (Notify.run
       ([Notify.Show "first" None None; Notify.Wait 1000;
         Notify.Show "second" None None] ++ es)
       (Notify.fresh 0)).
Proof.
  split; [reflexivity|].
  rewrite run_app.
  apply (stranded_run 0 es).
  apply second_call_strands_first. by vm_compute.
Qed.

(** ** Auto-refresh intervals *)

Lemma or_else_expected (n : AutoRefresh.node) :
  ParseInt.or_else (AutoRefresh.parsed_period n) 30000 =
  AutoRefresh.expected_period (default "" (AutoRefresh.attributes n !! "data-auto-refresh")).
Proof.
  unfold AutoRefresh.parsed_period, AutoRefresh.expected_period.
  destruct (AutoRefresh.attributes n !! "data-auto-refresh") as [v|]; simpl; [|reflexivity].
  destruct (ParseInt.parseInt v) as [[|k|k]|]; reflexivity.
Qed.

Lemma fold_setup_one (l : list AutoRefresh.node) (e : AutoRefresh.env) :
  AutoRefresh.autoRefreshInterval (fold_left AutoRefresh.setup_one l e) =
    AutoRefresh.autoRefreshInterval e /\
  AutoRefresh.intervals (fold_left AutoRefresh.setup_one l e) =
    (AutoRefresh.intervals e ++ AutoRefresh.registrations (AutoRefresh.next_handle e) l)%list.
Proof.
  revert e. induction l as [|n l IH]; intros e; simpl.
  - by rewrite app_nil_r.
  - destruct (IH (AutoRefresh.setup_one e n)) as [Hg Hi].
    rewrite Hg, Hi. unfold AutoRefresh.setup_one; simpl.
    rewrite or_else_expected, <- app_assoc. done.
Qed.

Lemma length_registrations (h : positive) (l : list AutoRefresh.node) :
  length (AutoRefresh.registrations h l) = length l.
Proof.
  revert h. induction l as [|n l IH]; intros h; simpl; [reflexivity|]. by rewrite IH.
Qed.


(** C2, as stated, fails for the auto-refresh timer: [setupAutoRefresh]
    neither stores the handle of an interval it creates nor clears an
    earlier one.  Running it twice on a page with one auto-refreshing
    element leaves two live intervals and the global unassigned. *)
Lemma auto_refresh_handle_counterexample :
  let doc := [AutoRefresh.Node 0 (<["data-auto-refresh" := "5000"]> ∅)] in
  let e := AutoRefresh.setupAutoRefresh doc (AutoRefresh.setupAutoRefresh doc AutoRefresh.fresh) in
  AutoRefresh.autoRefreshInterval e = None /\
  AutoRefresh.intervals e =
    [AutoRefresh.Interval 1 5000 0; AutoRefresh.Interval 2 5000 0] /\
  ~ AutoRefresh.single_handle_tracked e.
Proof.
  cbv zeta.
  assert (He : AutoRefresh.setupAutoRefresh
                 [AutoRefresh.Node 0 (<["data-auto-refresh" := "5000"]> ∅)]
                 (AutoRefresh.setupAutoRefresh
                    [AutoRefresh.Node 0 (<["data-auto-refresh" := "5000"]> ∅)]
                    AutoRefresh.fresh)
               = AutoRefresh.Env None 3
                   [AutoRefresh.Interval 1 5000 0; AutoRefresh.Interval 2 5000 0])
    by (vm_compute; reflexivity).
  rewrite He. unfold AutoRefresh.single_handle_tracked; simpl.
  split; [reflexivity|]. split; [reflexivity|]. discriminate.
Qed.

(** C2, amended: the pending-notification timer reference is a single
    page-wide handle.  Whatever calls and waiting came before, at most one
    notification timer is pending and the global holds its handle; each
    call of [showNotification] clears the stored handle before it creates
    the new timer, so that afterwards the new timer is the only pending
    one and the global holds its handle.  [setupAutoRefresh] keeps no
    handle: it leaves the global and the existing intervals as they are
    and adds one interval for each selected element. *)
Theorem timer_handles_tracked (es : list Notify.event) (t0 : Z)
    (m : string) (ty : option string) (dur : option Z)
    (doc : list AutoRefresh.node) (e : AutoRefresh.env) :
  let w := Notify.run es (Notify.fresh t0) in
  let w' := Notify.showNotification m ty dur w in
  ((length (Timers.pending w) <= 1)%nat /\
   (forall t, t ∈ Timers.pending w ->
      Notify.notificationTimeout (Timers.st w) = Some (Timers.tid t))) /\
  (Timers.pending w' =
     [Timers.Timer (Timers.next_id w) (Timers.now w + Timers.delay_ms (default 3000 dur))
        (Notify.RemoveNotification (Notify.next_el (Timers.st w)))] /\
   Notify.notificationTimeout (Timers.st w') = Some (Timers.next_id w)) /\
  (AutoRefresh.autoRefreshInterval (AutoRefresh.setupAutoRefresh doc e) =
     AutoRefresh.autoRefreshInterval e /\
   exists new,
     AutoRefresh.intervals (AutoRefresh.setupAutoRefresh doc e) =
       (AutoRefresh.intervals e ++ new)%list /\
     length new = length (AutoRefresh.querySelectorAll doc)).
Proof.
  intros w w'.
  assert (Hw : Notify.tracked w) by (apply tracked_run; exact I).
  split; [by apply tracked_pending|].
  split; [by apply showNotification_pending|].
  destruct (fold_setup_one (AutoRefresh.querySelectorAll doc) e) as [Hg Hi].
  split; [exact Hg|].
  eexists. split; [exact Hi | apply length_registrations].
Qed.

(** ** Debounce *)

Lemma last_cons_default {A} (l : list A) (a d : A) :
  List.last (a :: l) d = List.last l a.
Proof.
  revert a d. induction l as [|x l IH]; intros a d; [reflexivity|].
  change (List.last (a :: x :: l) d) with (List.last (x :: l) d).
  rewrite (IH x d), (IH x a). reflexivity.
Qed.

Section DebounceFacts.
Context {Args : Type}.
Variable wait : Z.

Local Abbreviation dloop := (Timers.loop (Debounce.callback Args) (Debounce.closure Args)).

Lemma debounce_run_app (es1 es2 : list (Debounce.event Args)) (w : dloop) :
  Debounce.run wait false (es1 ++ es2) w =
  Debounce.run wait false es2 (Debounce.run wait false es1 w).
Proof. apply fold_left_app. Qed.

(** A call re-arms the wrapper: whatever timer it had is cleared and the
    only pending timer is the new one, holding this call's arguments. *)
Lemma executedFunction_rearms (a : Args) (w : dloop) :
  (Timers.pending w = [] \/
   exists t, Timers.pending w = [t] /\
             Debounce.timeout (Timers.st w) = Some (Timers.tid t)) ->
  Debounce.executedFunction wait false a w =
    Timers.Loop (Timers.now w) (Pos.succ (Timers.next_id w))
      [Timers.Timer (Timers.next_id w) (Timers.now w + Timers.delay_ms wait) (Debounce.Later a)]
      (Debounce.Closure (Some (Timers.next_id w)) (Debounce.invoked (Timers.st w))).
Proof.
  destruct w as [t0 h q [tm inv]]. simpl.
  intros [-> | (t & -> & Htm)]; unfold Debounce.executedFunction; simpl in *.
  - destruct tm; reflexivity.
  - subst tm. simpl. rewrite filter_cons, filter_nil.
    rewrite decide_False by (intros Hne; by apply Hne). reflexivity.
Qed.

(** Time that stays short of the pending timer's due time changes nothing
    but the clock. *)
Lemma elapse_before_due (d : Z) (w : dloop) (t : Timers.timer (Debounce.callback Args)) :
  Timers.pending w = [t] -> Timers.now w + Z.max 0 d < Timers.due t ->
  Timers.elapse (Debounce.run_cb false) d w =
    Timers.Loop (Timers.now w + Z.max 0 d) (Timers.next_id w) [t] (Timers.st w).
Proof.
  destruct w as [t0 h q c]. simpl. intros -> Hlt.
  unfold Timers.elapse; simpl.
  destruct (Z.leb_spec (Timers.due t) (t0 + Z.max 0 d)); [lia | reflexivity].
Qed.

Lemma elapse_past_due (d : Z) (w : dloop) (h : positive) (due : Z) (a : Args) :
  Timers.pending w = [Timers.Timer h due (Debounce.Later a)] ->
  due <= Timers.now w + Z.max 0 d ->
  Timers.elapse (Debounce.run_cb false) d w =
    Timers.Loop (Timers.now w + Z.max 0 d) (Timers.next_id w) []
      (Debounce.Closure None (Debounce.invoked (Timers.st w) ++ [(due, a)])).
Proof.
  destruct w as [t0 h' q c]. simpl. intros -> Hle.
  unfold Timers.elapse; simpl.
  destruct (Z.leb_spec due (t0 + Z.max 0 d)); [reflexivity | lia].
Qed.

(** The rest of a burst, from the state right after one of its calls. *)
Lemma burst_tail_run (calls : list (Z * Args)) :
  forall (w : dloop) (h : positive) (a0 : Args),
  Timers.pending w = [Timers.Timer h (Timers.now w + Timers.delay_ms wait) (Debounce.Later a0)] ->
  Debounce.timeout (Timers.st w) = Some h ->
  Forall (fun c => 0 <= fst c < Timers.delay_ms wait) calls ->
  let w' := Debounce.run wait false (Debounce.burst_tail calls) w in
  exists h',
    Timers.pending w' =
      [Timers.Timer h' (Timers.now w' + Timers.delay_ms wait)
         (Debounce.Later (List.last (map snd calls) a0))] /\
    Debounce.timeout (Timers.st w') = Some h' /\
    Timers.now w' = Timers.now w + Debounce.burst_span calls /\
    Debounce.invoked (Timers.st w') = Debounce.invoked (Timers.st w).
Proof.
  induction calls as [|[gap a] calls IH]; intros w h a0 Hq Htm Hgaps; simpl.
  - exists h. rewrite Z.add_0_r. auto.
  - apply Forall_cons in Hgaps as [Hgap Hgaps]. simpl in Hgap.
    rewrite (elapse_before_due gap w _ Hq) by (simpl; lia).
    rewrite executedFunction_rearms by (right; eexists; split; [reflexivity | exact Htm]).
    simpl.
    match goal with |- context [Debounce.run wait false _ ?w1] =>
      destruct (IH w1 (Timers.next_id w) a) as (h' & Hq' & Htm' & Hnow' & Hinv');
        [reflexivity | reflexivity | exact Hgaps |]
    end.
    exists h'. simpl in *.
    split.
    { rewrite Hq'. do 3 f_equal.
      symmetry. exact (last_cons_default (map snd calls) a a0). }
    split; [exact Htm'|]. split; [|exact Hinv'].
    rewrite Hnow'. unfold Debounce.burst_span; simpl. lia.
Qed.

End DebounceFacts.

(** A burst on the effective delay of the timer, whatever [wait] is. *)
Lemma debounce_burst_effective {Args : Type} (wait : Z)
    (w : Timers.loop (Debounce.callback Args) (Debounce.closure Args))
    (first : Args) (calls : list (Z * Args)) (d : Z) :
  Timers.pending w = [] ->
  Forall (fun c => 0 <= fst c < Timers.delay_ms wait) calls ->
  0 <= d ->
  let w' := Debounce.run wait false (Debounce.burst first calls ++ [Debounce.Wait d]) w in
  let t_last := Timers.now w + Debounce.burst_span calls in
  if Timers.delay_ms wait <=? d then
    Debounce.invoked (Timers.st w') =
      (Debounce.invoked (Timers.st w) ++
       [(t_last + Timers.delay_ms wait, Debounce.last_args first calls)])%list /\
    Timers.pending w' = []
  else
    Debounce.invoked (Timers.st w') = Debounce.invoked (Timers.st w) /\
    exists h, Timers.pending w' =
      [Timers.Timer h (t_last + Timers.delay_ms wait)
         (Debounce.Later (Debounce.last_args first calls))].
Proof.
  intros Hquiet Hgaps Hd w' t_last. subst w'.
  rewrite debounce_run_app. unfold Debounce.burst.
  change (Debounce.run wait false (Debounce.Call first :: Debounce.burst_tail calls) w)
    with (Debounce.run wait false (Debounce.burst_tail calls)
            (Debounce.executedFunction wait false first w)).
  rewrite executedFunction_rearms by (by left).
  match goal with |- context [Debounce.run wait false (Debounce.burst_tail calls) ?w1] =>
    destruct (burst_tail_run wait calls w1 (Timers.next_id w) first)
      as (h' & Hq' & Htm' & Hnow' & Hinv'); [reflexivity | reflexivity | exact Hgaps |];
    set (wb := Debounce.run wait false (Debounce.burst_tail calls) w1) in *
  end.
  simpl in Hnow', Hinv'. fold t_last in Hnow'.
  unfold Debounce.last_args. rewrite Hnow' in Hq'.
  change (Debounce.run wait false [Debounce.Wait d] wb)
    with (Timers.elapse (Debounce.run_cb false) d wb).
  destruct (Z.leb_spec (Timers.delay_ms wait) d) as [Hle | Hlt].
  - rewrite (elapse_past_due d wb _ _ _ Hq') by lia. simpl.
    rewrite Hinv'. done.
  - rewrite (elapse_before_due d wb _ Hq') by (simpl; lia). simpl.
    split; [exact Hinv' | by exists h'].
Qed.

(** C6, as stated, fails for a wait above 2147483647: the timer does not
    wait that long.  With wait = 3000000000 the delay wraps to a negative
    number, the timer is due at once, and two calls 100 ms apart (well
    within the wait interval of each other) invoke the wrapped function
    twice, each right after its call. *)
Lemma debounce_long_wait_counterexample :
  Debounce.invoked (Timers.st
    (Debounce.run 3000000000 false
       (Debounce.burst 1%nat [(100, 2%nat)] ++ [Debounce.Wait 100])
       (Debounce.fresh 0 1))) = [(0, 1%nat); (100, 2%nat)].
Proof. by vm_compute. Qed.

(** C6, amended: for a wait within the range of a timer delay (at most
    2147483647), a burst of calls to a debounced wrapper (immediate flag
    falsy), each less than the wait interval after the one before, made
    when no earlier call is still waiting, invokes the wrapped function
    exactly once: nothing is invoked until the wait interval has passed
    since the last call of the burst, and then the function is invoked
    once, at that moment, with the arguments of the last call, and no
    timer is left.  The calls are those of the burst: the wrapped
    function makes none itself. *)
Theorem debounce_burst_invokes_once {Args : Type} (wait : Z)
    (w : Timers.loop (Debounce.callback Args) (Debounce.closure Args))
    (first : Args) (calls : list (Z * Args)) (d : Z)
    (Hrange : Timers.in_range wait)
    (Hquiet : Timers.pending w = [])
    (Hgaps : Forall (fun c => 0 <= fst c < wait) calls)
    (Hd : 0 <= d) :
  let w' := Debounce.run wait false (Debounce.burst first calls ++ [Debounce.Wait d]) w in
  let t_last := Timers.now w + Debounce.burst_span calls in
  if Z.max 0 wait <=? d then
    Debounce.invoked (Timers.st w') =
      (Debounce.invoked (Timers.st w) ++
       [(t_last + Z.max 0 wait, Debounce.last_args first calls)])%list /\
    Timers.pending w' = []
  else
    Debounce.invoked (Timers.st w') = Debounce.invoked (Timers.st w) /\
    exists h, Timers.pending w' =
      [Timers.Timer h (t_last + Z.max 0 wait)
         (Debounce.Later (Debounce.last_args first calls))].
Proof.
  rewrite <- (delay_ms_in_range wait Hrange).
  apply debounce_burst_effective; [exact Hquiet | | exact Hd].
  rewrite (delay_ms_in_range wait Hrange).
  eapply Forall_impl; [exact Hgaps|]. simpl. intros c Hc. lia.
Qed.

Lemma debounce_burst_invokes_once_witness :
  Debounce.invoked (Timers.st
    (Debounce.run 200 false
       (Debounce.burst 1%nat [(100, 2%nat); (150, 3%nat)] ++ [Debounce.Wait 200])
       (Debounce.fresh 0 1))) = [(450, 3%nat)].
Proof.
  pose proof (debounce_burst_invokes_once 200 (Debounce.fresh 0 1) 1%nat
                [(100, 2%nat); (150, 3%nat)] 200 ltac:(unfold Timers.in_range; lia) eq_refl
                ltac:(repeat constructor; simpl; lia) ltac:(lia)) as H.
  cbv zeta in H. simpl Z.leb in H. destruct H as [H _]. exact H.
Defined.

(** ** Throttle *)

Section ThrottleFacts.
Context {Args : Type}.
Variable limit : Z.
Variable func_throws : Z -> Args -> bool.
Hypothesis Hreturns : forall t a, func_throws t a = false.

Local Abbreviation tloop := (Timers.loop Throttle.callback (Throttle.closure Args)).






End ThrottleFacts.




(** ** Toasts of the fetch helper and of the clipboard functions *)

Lemma showNotification_body (m : string) (ty : option string) (dur : option Z)
    (w : Notify.world) :
  Notify.body (Timers.st (Notify.showNotification m ty dur w)) =
    (Notify.body (Timers.st w) ++
     [Notify.notification_node (Notify.next_el (Timers.st w)) m (default "info" ty)])%list /\
  Notify.next_el (Timers.st (Notify.showNotification m ty dur w)) =
    S (Notify.next_el (Timers.st w)).
Proof.
  destruct w as [t0 h q [nt bd ne cs]].
  unfold Notify.showNotification; simpl. destruct nt; simpl; done.
Qed.

Lemma showNotification_last_toast (m : string) (ty : option string) (dur : option Z)
    (w : Notify.world) :
  Notify.last_toast (Notify.showNotification m ty dur w) =
    Some (Notify.toast m (default "info" ty)).
Proof.
  unfold Notify.last_toast.
  destruct (showNotification_body m ty dur w) as [-> _].
  rewrite filter_app, reverse_app. reflexivity.
Qed.

Lemma fallback_last_toast (nav : Clipboard.navigator) (text : string) (w : Notify.world) :
  Notify.last_toast (Clipboard.fallbackCopyTextToClipboard nav text w) =
    match Clipboard.execCommand nav "copy" with
    | Clipboard.ExecReturns _ => Some (Notify.toast "Copied to clipboard!" "success")
    | Clipboard.ExecThrows _ => Some (Notify.toast "Copy failed. Please copy manually." "warning")
    end.
Proof.
  unfold Clipboard.fallbackCopyTextToClipboard, Notify.last_toast.
  cbv zeta.
  set (w2 := Timers.with_st (Notify.appendChild _) _).
  assert (Hne : Notify.next_el (Timers.st w2) = S (Notify.next_el (Timers.st w)))
    by (destruct w as [t0 h q [nt bd ne cs]]; reflexivity).
  assert (Hshow : forall m ty dur (w3 : Notify.world),
            Notify.next_el (Timers.st w3) = S (Notify.next_el (Timers.st w)) ->
            match reverse (filter (fun e => Notify.tagName e = "div")
                    (Notify.body (Timers.st
                       (Timers.with_st (Notify.remove (Notify.next_el (Timers.st w)))
                          (Notify.showNotification m (Some ty) dur w3))))) with
            | e :: _ => Some (Notify.className e, Notify.innerHTML e)
            | [] => None
            end = Some (Notify.toast m ty)).
  { intros m ty dur w3 Hw3.
    destruct (showNotification_body m (Some ty) dur w3) as [Hb _].
    destruct (Notify.showNotification m (Some ty) dur w3) as [t1 h1 q1 [nt1 bd1 ne1 cs1]].
    simpl in *. subst bd1. rewrite Hw3.
    rewrite !filter_app, reverse_app.
    rewrite (filter_cons _ (Notify.notification_node _ _ _)), filter_nil.
    rewrite decide_True by (simpl; lia).
    reflexivity. }
  destruct (Clipboard.execCommand nav "copy") as [ok | err].
  - apply Hshow. exact Hne.
  - apply Hshow. destruct w2 as [t2 h2 q2 [nt2 bd2 ne2 cs2]]. exact Hne.
Qed.

(** The page after the [catch] handler of [makeRequest] has run. *)
Lemma request_failed_toast (w : Notify.world) :
  Notify.last_toast
    (Notify.showNotification "Request failed. Please try again." (Some "danger") None
       (Timers.with_st (Notify.console_error "Request failed:") w)) =
  Some (Notify.toast "Request failed. Please try again." "danger").
Proof. apply showNotification_last_toast. Qed.

(** C8, as stated, fails on an ok response whose body is not JSON:
    [response.json()] rejects, the [catch] handler runs, and the promise
    is rejected after the toast instead of resolving. *)
Lemma ok_response_counterexample :
  let fetch := fun (_ : string) (_ : gmap string Request.value) =>
    Request.Fulfilled (Request.Response (J := string) true 200 None) in
  let r := Request.makeRequest fetch "/api/status" None (Notify.fresh 0) in
  fst r = Request.Rejected (Request.SyntaxError "Unexpected token in JSON") /\
  Notify.last_toast (snd r) =
    Some (Notify.toast "Request failed. Please try again." "danger").
Proof. split; reflexivity. Qed.

(** C8, amended: when [fetch] rejects (a network failure) or the response
    is not ok, [makeRequest] is rejected, with the network error or with
    the HTTP error naming the status, after the toast "Request failed.
    Please try again." of type danger has been put on the page; on an ok
    response whose body parses as JSON it resolves to the parsed body and
    the page is untouched; on an ok response whose body does not parse it
    is rejected after the same toast. *)
Theorem makeRequest_outcomes {J : Type}
    (fetch : string -> gmap string Request.value -> Request.settled (Request.response J))
    (url : string) (options : option (gmap string Request.value)) (w : Notify.world) :
  let after_toast :=
    Notify.showNotification "Request failed. Please try again." (Some "danger") None
      (Timers.with_st (Notify.console_error "Request failed:") w) in
  Notify.last_toast after_toast =
    Some (Notify.toast "Request failed. Please try again." "danger") /\
  match fetch url (default ∅ options ∪ Request.defaultOptions) with
  | Request.Rejected e =>
      Request.makeRequest fetch url options w = (Request.Rejected e, after_toast)
  | Request.Fulfilled response =>
      if Request.ok response then
        match Request.parsed_body response with
        | Some body =>
            Request.makeRequest fetch url options w = (Request.Fulfilled body, w)
        | None =>
            exists e, Request.makeRequest fetch url options w =
                        (Request.Rejected e, after_toast)
        end
      else
        Request.makeRequest fetch url options w =
          (Request.Rejected
             (Request.Error ("HTTP error! status: " +:+
                             js_string_of_Z (Request.status response))),
           after_toast)
  end.
Proof.
  intros after_toast. split; [apply request_failed_toast|].
  unfold Request.makeRequest, Request.catch_, Request.then_, Request.settle,
    Request.effect, Request.throw, Request.json, Request.resolve.
  cbv zeta.
  destruct (fetch url (default ∅ options ∪ Request.defaultOptions)) as [[okr st body] | e];
    simpl; [|reflexivity].
  destruct okr; simpl; [|reflexivity].
  destruct body as [j|]; simpl; [reflexivity|].
  eexists. reflexivity.
Qed.

(** C9: with the clipboard API present and its write succeeding the
    success toast is shown; with the API absent or its write failing the
    legacy method runs instead; the legacy method shows the warning toast
    when the copy command throws.  When the copy command returns false
    (the copy was not carried out) the legacy method shows the success
    toast all the same. *)
Theorem legacy_copy_toasts (text : string) (w : Notify.world)
    (exec : string -> Clipboard.exec_result) (err : string) :
  Notify.last_toast
    (Clipboard.copyToClipboard
       (Clipboard.Navigator (Some (fun _ => Clipboard.WriteOk)) exec) text w) =
    Some (Notify.toast "Copied to clipboard!" "success") /\
  Clipboard.copyToClipboard (Clipboard.Navigator None exec) text w =
    Clipboard.fallbackCopyTextToClipboard (Clipboard.Navigator None exec) text w /\
  Clipboard.copyToClipboard
    (Clipboard.Navigator (Some (fun _ => Clipboard.WriteFails err)) exec) text w =
    Clipboard.fallbackCopyTextToClipboard
      (Clipboard.Navigator (Some (fun _ => Clipboard.WriteFails err)) exec) text
      (Timers.with_st (Notify.console_error "Failed to copy:") w) /\
  Notify.last_toast
    (Clipboard.fallbackCopyTextToClipboard
       (Clipboard.Navigator None (fun _ => Clipboard.ExecReturns true)) text w) =
    Some (Notify.toast "Copied to clipboard!" "success") /\
  Notify.last_toast
    (Clipboard.fallbackCopyTextToClipboard
       (Clipboard.Navigator None (fun _ => Clipboard.ExecThrows err)) text w) =
    Some (Notify.toast "Copy failed. Please copy manually." "warning") /\
  Notify.last_toast
    (Clipboard.fallbackCopyTextToClipboard
       (Clipboard.Navigator None (fun _ => Clipboard.ExecReturns false)) text w) =
    Some (Notify.toast "Copied to clipboard!" "success").
Proof.
  split; [apply showNotification_last_toast|].
  split; [reflexivity|]. split; [reflexivity|].
  repeat split; apply fallback_last_toast.
Qed.

(** ** parseInt reads back decimal numerals *)

Tactic Notation "uint_induction" ident(d) ident(IH) :=
  induction d as [|d IH|d IH|d IH|d IH|d IH|d IH|d IH|d IH|d IH|d IH].






Lemma to_double_zero (n : Z) : ParseInt.to_double n = 0 -> n = 0.
Proof.
  unfold ParseInt.to_double.
  destruct (Z.ltb_spec (Z.abs n) 9007199254740992) as [Hlt | Hge]; [done|].
  set (e := Z.log2 (Z.abs n) - 52).
  set (q := Z.shiftr (Z.abs n) e).
  intros H.
  assert (He : 0 <= e).
  { unfold e. assert (Z.log2 9007199254740992 <= Z.log2 (Z.abs n))
      by (apply Z.log2_le_mono; lia).
    change (Z.log2 9007199254740992) with 53 in *. lia. }
  assert (Hq : 0 < q).
  { unfold q. rewrite Z.shiftr_div_pow2 by exact He.
    apply Z.div_str_pos. split; [apply Z.pow_pos_nonneg; lia|].
    destruct (Z.log2_spec (Z.abs n)) as [Hlo _]; [lia|].
    etransitivity; [|exact Hlo].
    apply Z.pow_le_mono_r; unfold e; lia. }
  apply Z.mul_eq_0 in H. destruct H as [H | H]; [lia|].
  rewrite Z.shiftl_mul_pow2 in H by exact He.
  apply Z.mul_eq_0 in H. destruct H as [H | H].
  - exfalso. revert H.
    destruct (_ <? _); [lia|]. destruct (_ <? _); [lia|]. destruct (Z.even q); lia.
  - exfalso. assert (0 < 2 ^ e) by (apply Z.pow_pos_nonneg; lia). lia.
Qed.







(** ** Worked examples *)

Example parseInt_examples :
  ParseInt.parseInt "" = None /\
  ParseInt.parseInt "fast" = None /\
  ParseInt.parseInt "0" = Some 0 /\
  ParseInt.parseInt "15000" = Some 15000 /\
  ParseInt.parseInt " 5000ms" = Some 5000 /\
  ParseInt.parseInt "-250" = Some (-250) /\
  ParseInt.parseInt "0x10" = Some 16 /\
  ParseInt.parseInt (String (ascii_of_nat 194) (String (ascii_of_nat 160) "5000")) =
    Some 5000 /\
  ParseInt.parseInt "9007199254740993" = Some 9007199254740992.
Proof. repeat split; reflexivity. Qed.

Example throttle_example :
  Throttle.invoked (Timers.st
    (Throttle.run 200 (fun _ _ => false)
       [Throttle.Call 1%nat; Throttle.Wait 100; Throttle.Call 2%nat;
        Throttle.Wait 100; Throttle.Call 3%nat]
       (Throttle.fresh 0 1))) = [(0, 1%nat); (200, 3%nat)].
Proof. reflexivity. Qed.

Example setupAutoRefresh_example :
  AutoRefresh.intervals
    (AutoRefresh.setupAutoRefresh
       [AutoRefresh.Node 0 (<["data-auto-refresh" := ""]> ∅);
        AutoRefresh.Node 1 (<["class" := "card"]> ∅);
        AutoRefresh.Node 2 (<["data-auto-refresh" := "5000"]> ∅);
        AutoRefresh.Node 3 (<["data-auto-refresh" := "0"]> ∅)]
       AutoRefresh.fresh) =
  [AutoRefresh.Interval 1 30000 0; AutoRefresh.Interval 2 5000 2;
   AutoRefresh.Interval 3 30000 3].
Proof. vm_compute. reflexivity. Qed.

(** * Further properties of the code *)

(** ** Theme preference across page loads *)

Lemma setTheme_same_elsewhere (theme : string) (b : Theme.browser) :
  PageLoad.same_elsewhere b (Theme.setTheme theme b).
Proof.
  split; intros k Hk; unfold Theme.setTheme; simpl; by rewrite lookup_insert_ne.
Qed.

Lemma same_elsewhere_refl (b : Theme.browser) : PageLoad.same_elsewhere b b.
Proof. by split. Qed.

Lemma initializeTheme_cases (b : Theme.browser) :
  (exists saved, Theme.localStorage b !! Theme.theme_key = Some saved /\ saved <> "" /\
                 Theme.initializeTheme b = Theme.setTheme saved b) \/
  ((Theme.localStorage b !! Theme.theme_key = None \/
    Theme.localStorage b !! Theme.theme_key = Some "") /\
   Theme.initializeTheme b = b).
Proof.
  unfold Theme.initializeTheme. cbv zeta.
  destruct (Theme.localStorage b !! Theme.theme_key) as [saved|]; simpl; [|by right; auto].
  destruct (String.eqb_spec saved ""); simpl.
  - subst. right. auto.
  - left. exists saved. auto.
Qed.

(** X1: a theme set on one page is restored on the next page load: after
    [setTheme theme] with a non-empty [theme], whatever attributes the
    next page is served with, [initializeTheme] puts [theme] on the root
    element and leaves it in local storage. *)
Theorem theme_survives_reload (theme : string) (b : Theme.browser)
    (served : gmap string string) (Htheme : theme <> "") :
  let b' := Theme.initializeTheme (PageLoad.reload served (Theme.setTheme theme b)) in
  Theme.documentElement b' !! Theme.theme_attr = Some theme /\
  Theme.localStorage b' !! Theme.theme_key = Some theme.
Proof.
  intros b'. subst b'.
  destruct (initializeTheme_cases (PageLoad.reload served (Theme.setTheme theme b)))
    as [(saved & Hs & Hne & ->) | [[Hs | Hs] _]].
  - assert (saved = theme) as ->.
    { simpl in Hs. unfold Theme.theme_key in Hs. rewrite lookup_insert_eq in Hs. congruence. }
    destruct (setTheme_lookup theme (PageLoad.reload served (Theme.setTheme theme b))); auto.
  - simpl in Hs. unfold Theme.theme_key in Hs. by rewrite lookup_insert_eq in Hs.
  - simpl in Hs. unfold Theme.theme_key in Hs. rewrite lookup_insert_eq in Hs. congruence.
Qed.

Lemma theme_survives_reload_witness :
  Theme.documentElement
    (Theme.initializeTheme
       (PageLoad.reload ∅ (Theme.setTheme "dark" (Theme.Browser ∅ ∅))))
    !! Theme.theme_attr = Some "dark".
Proof.
  exact (proj1 (theme_survives_reload "dark" (Theme.Browser ∅ ∅) ∅ ltac:(discriminate))).
Defined.

(** X2: the theme functions touch nothing but the theme: [setTheme],
    [toggleTheme] and [initializeTheme] leave every other local-storage
    key and every other attribute of the root element as they were. *)
Theorem theme_functions_frame (theme : string) (b : Theme.browser) :
  PageLoad.same_elsewhere b (Theme.setTheme theme b) /\
  PageLoad.same_elsewhere b (Theme.toggleTheme b) /\
  PageLoad.same_elsewhere b (Theme.initializeTheme b).
Proof.
  split; [apply setTheme_same_elsewhere|]. split.
  - rewrite toggleTheme_cases. apply setTheme_same_elsewhere.
  - destruct (initializeTheme_cases b) as [(saved & _ & _ & ->) | [_ ->]].
    + apply setTheme_same_elsewhere.
    + apply same_elsewhere_refl.
Qed.

(** X3: [toggleTheme] treats everything but "dark" as light: from a root
    element whose data-theme is missing or holds any value other than
    "dark" it switches to "dark"; and whatever the state before, a second
    toggle always gives "light" and three toggles equal one. *)
Theorem toggleTheme_from_any_state (b : Theme.browser) :
  (Theme.documentElement b !! Theme.theme_attr <> Some "dark" ->
   Theme.toggleTheme b = Theme.setTheme "dark" b) /\
  Theme.documentElement (Theme.toggleTheme (Theme.toggleTheme b)) !! Theme.theme_attr =
    Some (if decide (Theme.documentElement b !! Theme.theme_attr = Some "dark")
          then "dark" else "light") /\
  Theme.toggleTheme (Theme.toggleTheme (Theme.toggleTheme b)) = Theme.toggleTheme b.
Proof.
  assert (Hset : forall t t' b0, Theme.setTheme t (Theme.setTheme t' b0) = Theme.setTheme t b0).
  { intros t t' b0. unfold Theme.setTheme; simpl. by rewrite !insert_insert_eq. }
  assert (Htog : forall t b0,
            Theme.toggleTheme (Theme.setTheme t b0) =
            Theme.setTheme (if decide (t = "dark") then "light" else "dark") b0).
  { intros t b0. rewrite toggleTheme_cases.
    destruct (setTheme_lookup t b0) as [_ ->]. rewrite Hset.
    destruct (decide (t = "dark")) as [-> | Hne].
    - by rewrite decide_True.
    - rewrite decide_False; [done | congruence]. }
  split; [|split].
  - intros Hne. rewrite toggleTheme_cases. by rewrite decide_False.
  - rewrite (toggleTheme_cases b), Htog.
    destruct (decide (Theme.documentElement b !! Theme.theme_attr = Some "dark"));
      simpl; apply setTheme_lookup.
  - rewrite (toggleTheme_cases b), !Htog.
    destruct (decide (Theme.documentElement b !! Theme.theme_attr = Some "dark")); reflexivity.
Qed.

(** ** Debounce: the leading-edge mode and what holds of every trace *)

Section DebounceMore.
Context {Args : Type}.
Variable wait : Z.
Variable immediate : bool.

Local Abbreviation dloop' := (Timers.loop (Debounce.callback Args) (Debounce.closure Args)).

Lemma debounce_run_app' (es1 es2 : list (Debounce.event Args)) (w : dloop') :
  Debounce.run wait immediate (es1 ++ es2) w =
  Debounce.run wait immediate es2 (Debounce.run wait immediate es1 w).
Proof. apply fold_left_app. Qed.

(** What one call does to a wrapper whose [timeout] tracks the queue. *)
Lemma executedFunction_tracked (a : Args) (w : dloop') :
  Traces.debounce_tracked w ->
  Debounce.executedFunction wait immediate a w =
    Timers.Loop (Timers.now w) (Pos.succ (Timers.next_id w))
      [Timers.Timer (Timers.next_id w) (Timers.now w + Timers.delay_ms wait) (Debounce.Later a)]
      (Debounce.Closure (Some (Timers.next_id w))
         (if immediate && bool_decide (Timers.pending w = [])
          then Debounce.invoked (Timers.st w) ++ [(Timers.now w, a)]
          else Debounce.invoked (Timers.st w))).
Proof.
  destruct w as [t0 h q [tm inv]]. unfold Traces.debounce_tracked. simpl.
  destruct q as [|t [|u q]]; simpl; intros Htm; try done; subst tm;
    unfold Debounce.executedFunction; simpl.
  - destruct immediate; reflexivity.
  - rewrite filter_cons, filter_nil.
    rewrite decide_False by (intros Hne; by apply Hne).
    destruct immediate; reflexivity.
Qed.

Lemma elapse_tracked (d : Z) (w : dloop') :
  Traces.debounce_tracked w ->
  Timers.elapse (Debounce.run_cb immediate) d w =
    match Timers.pending w with
    | t :: _ =>
        if Timers.due t <=? Timers.now w + Z.max 0 d then
          Timers.Loop (Timers.now w + Z.max 0 d) (Timers.next_id w) []
            (Debounce.run_cb immediate (Timers.due t) (Timers.cb t) (Timers.st w))
        else Timers.Loop (Timers.now w + Z.max 0 d) (Timers.next_id w) [t] (Timers.st w)
    | [] => Timers.Loop (Timers.now w + Z.max 0 d) (Timers.next_id w) [] (Timers.st w)
    end.
Proof.
  destruct w as [t0 h q c]. unfold Traces.debounce_tracked, Timers.elapse. simpl.
  destruct q as [|t [|u q]]; simpl; try done.
  intros _. destruct (Timers.due t <=? t0 + Z.max 0 d); reflexivity.
Qed.

Lemma debounce_tracked_step (e : Debounce.event Args) (w : dloop') :
  Traces.debounce_tracked w ->
  Traces.debounce_tracked (Debounce.step wait immediate w e).
Proof.
  intros Hw. destruct e as [a | d]; simpl.
  - rewrite executedFunction_tracked by exact Hw. reflexivity.
  - rewrite elapse_tracked by exact Hw.
    unfold Traces.debounce_tracked in *.
    destruct (Timers.pending w) as [|t [|u q]]; simpl; try done.
    destruct (Timers.due t <=? Timers.now w + Z.max 0 d); simpl; [|exact Hw].
    destruct (Timers.cb t). simpl. destruct immediate; reflexivity.
Qed.

Lemma debounce_tracked_run (es : list (Debounce.event Args)) (w : dloop') :
  Traces.debounce_tracked w ->
  Traces.debounce_tracked (Debounce.run wait immediate es w).
Proof.
  revert w. induction es as [|e es IH]; intros w Hw; simpl; [exact Hw|].
  apply IH. by apply debounce_tracked_step.
Qed.

(** Invocations never outnumber calls: each one is paid for by a call,
    and in trailing mode a pending timer is an invocation still owed. *)
Lemma debounce_invocations_step (e : Debounce.event Args) (w : dloop') (n : nat) :
  Traces.debounce_tracked w ->
  (length (Debounce.invoked (Timers.st w)) +
   (if immediate then 0 else length (Timers.pending w)) <= n)%nat ->
  (length (Debounce.invoked (Timers.st (Debounce.step wait immediate w e))) +
   (if immediate then 0 else length (Timers.pending (Debounce.step wait immediate w e)))
   <= n + length (Traces.debounce_calls [e]))%nat.
Proof.
  intros Hw Hn. destruct e as [a | d]; simpl.
  - rewrite executedFunction_tracked by exact Hw. simpl.
    unfold Traces.debounce_tracked in Hw.
    destruct (Timers.pending w) as [|t [|u q]]; simpl in *; try done;
      destruct immediate; simpl in *; rewrite ?length_app; simpl; lia.
  - rewrite elapse_tracked by exact Hw.
    unfold Traces.debounce_tracked in Hw.
    destruct (Timers.pending w) as [|t [|u q]]; simpl in *; try done; [lia|].
    destruct (Timers.due t <=? Timers.now w + Z.max 0 d); simpl; [|lia].
    destruct (Timers.cb t). simpl.
    destruct immediate; simpl in *; rewrite ?length_app; simpl; lia.
Qed.

Lemma debounce_invocations_run (es : list (Debounce.event Args)) (w : dloop') (n : nat) :
  Traces.debounce_tracked w ->
  (length (Debounce.invoked (Timers.st w)) +
   (if immediate then 0 else length (Timers.pending w)) <= n)%nat ->
  (length (Debounce.invoked (Timers.st (Debounce.run wait immediate es w))) +
   (if immediate then 0
    else length (Timers.pending (Debounce.run wait immediate es w)))
   <= n + length (Traces.debounce_calls es))%nat.
Proof.
  revert w n. induction es as [|e es IH]; intros w n Hw Hn.
  - simpl. unfold Traces.debounce_calls; simpl. lia.
  - pose proof (debounce_invocations_step e w n Hw Hn) as Hstep.
    pose proof (IH _ _ (debounce_tracked_step e w Hw) Hstep) as Hrun.
    change (Debounce.run wait immediate (e :: es) w)
      with (Debounce.run wait immediate es (Debounce.step wait immediate w e)).
    assert (length (Traces.debounce_calls (e :: es)) =
            length (Traces.debounce_calls [e]) + length (Traces.debounce_calls es))%nat
      as -> by (destruct e; reflexivity).
    lia.
Qed.

End DebounceMore.

Section DebounceBursts.
Context {Args : Type}.
Variable wait : Z.
Variable immediate : bool.

(** The calls of a burst after its first one invoke nothing, in either
    mode: each finds the timer of the call before it still pending. *)
Lemma burst_tail_quiet (calls : list (Z * Args)) :
  forall (w : Timers.loop (Debounce.callback Args) (Debounce.closure Args))
         (h : positive) (a0 : Args),
  Timers.pending w = [Timers.Timer h (Timers.now w + Timers.delay_ms wait) (Debounce.Later a0)] ->
  Debounce.timeout (Timers.st w) = Some h ->
  Forall (fun c => 0 <= fst c < Timers.delay_ms wait) calls ->
  let w' := Debounce.run wait immediate (Debounce.burst_tail calls) w in
  exists h' a',
    Timers.pending w' =
      [Timers.Timer h' (Timers.now w' + Timers.delay_ms wait) (Debounce.Later a')] /\
    Debounce.timeout (Timers.st w') = Some h' /\
    Debounce.invoked (Timers.st w') = Debounce.invoked (Timers.st w).
Proof.
  induction calls as [|[gap a] calls IH]; intros w h a0 Hq Htm Hgaps; simpl.
  - exists h, a0. auto.
  - apply Forall_cons in Hgaps as [Hgap Hgaps]. simpl in Hgap.
    assert (Hw : Traces.debounce_tracked w)
      by (unfold Traces.debounce_tracked; rewrite Hq; exact Htm).
    rewrite (elapse_tracked immediate gap w Hw), Hq. simpl.
    destruct (Z.leb_spec (Timers.now w + Timers.delay_ms wait) (Timers.now w + Z.max 0 gap)); [lia|].
    rewrite executedFunction_tracked by exact Htm. simpl.
    rewrite andb_false_r.
    match goal with |- context [Debounce.run wait immediate _ ?w1] =>
      destruct (IH w1 (Timers.next_id w) a) as (h' & a' & Hq' & Htm' & Hinv');
        [reflexivity | reflexivity | exact Hgaps |]
    end.
    exists h', a'. auto.
Qed.

End DebounceBursts.

(** X4: whatever the mode, the wait and the sequence of calls and
    waiting, a debounced wrapper has at most one timer pending, its
    [timeout] variable holds that timer's handle (and is null when none is
    pending), and the wrapped function has been invoked at most as often
    as the wrapper was called. *)
Theorem debounce_every_trace {Args : Type} (wait : Z) (immediate : bool)
    (es : list (Debounce.event Args)) (t0 : Z) (h0 : positive) :
  let w := Debounce.run wait immediate es (Debounce.fresh t0 h0) in
  (length (Timers.pending w) <= 1)%nat /\
  (forall t, t ∈ Timers.pending w ->
     Debounce.timeout (Timers.st w) = Some (Timers.tid t)) /\
  (Timers.pending w = [] -> Debounce.timeout (Timers.st w) = None) /\
  (length (Debounce.invoked (Timers.st w)) <= length (Traces.debounce_calls es))%nat.
Proof.
  intros w.
  assert (Hw : Traces.debounce_tracked w)
    by (apply debounce_tracked_run; reflexivity).
  assert (Hn : (length (Debounce.invoked (Timers.st w)) +
                (if immediate then 0 else length (Timers.pending w))
                <= 0 + length (Traces.debounce_calls es))%nat).
  { apply (debounce_invocations_run wait immediate es (Debounce.fresh t0 h0) 0).
    - reflexivity.
    - simpl. destruct immediate; simpl; lia. }
  unfold Traces.debounce_tracked in Hw.
  destruct (Timers.pending w) as [|t [|u q]] eqn:Hq; simpl in *; try done.
  - split; [lia|]. split; [intros t Ht; by apply elem_of_nil in Ht|].
    split; [done|]. destruct immediate; lia.
  - split; [lia|].
    split; [intros u Hu; apply list_elem_of_singleton in Hu; by subst|].
    split; [done|]. destruct immediate; lia.
Qed.

(** A leading-edge burst on the effective delay of the timer. *)
Lemma debounce_leading_effective {Args : Type} (wait : Z)
    (w : Timers.loop (Debounce.callback Args) (Debounce.closure Args))
    (first : Args) (calls : list (Z * Args)) (d : Z) :
  Timers.pending w = [] ->
  Debounce.timeout (Timers.st w) = None ->
  Forall (fun c => 0 <= fst c < Timers.delay_ms wait) calls ->
  let w' := Debounce.run wait true (Debounce.burst first calls ++ [Debounce.Wait d]) w in
  Debounce.invoked (Timers.st w') =
    (Debounce.invoked (Timers.st w) ++ [(Timers.now w, first)])%list /\
  (if Timers.delay_ms wait <=? Z.max 0 d
   then Timers.pending w' = [] /\ Debounce.timeout (Timers.st w') = None
   else length (Timers.pending w') = 1%nat).
Proof.
  intros Hquiet Hnull Hgaps w'. subst w'.
  rewrite debounce_run_app'. unfold Debounce.burst.
  change (Debounce.run wait true (Debounce.Call first :: Debounce.burst_tail calls) w)
    with (Debounce.run wait true (Debounce.burst_tail calls)
            (Debounce.executedFunction wait true first w)).
  assert (Hw : Traces.debounce_tracked w)
    by (unfold Traces.debounce_tracked; rewrite Hquiet; exact Hnull).
  rewrite (executedFunction_tracked wait true first w Hw), Hquiet. simpl.
  match goal with |- context [Debounce.run wait true (Debounce.burst_tail calls) ?w1] =>
    destruct (burst_tail_quiet wait true calls w1 (Timers.next_id w) first)
      as (h' & a' & Hq' & Htm' & Hinv'); [reflexivity | reflexivity | exact Hgaps |];
    set (wb := Debounce.run wait true (Debounce.burst_tail calls) w1) in *
  end.
  simpl in Hinv'.
  assert (Hwb : Traces.debounce_tracked wb)
    by (unfold Traces.debounce_tracked; rewrite Hq'; exact Htm').
  rewrite (elapse_tracked true d wb Hwb), Hq'. simpl.
  destruct (Z.leb_spec (Timers.now wb + Timers.delay_ms wait) (Timers.now wb + Z.max 0 d));
    destruct (Z.leb_spec (Timers.delay_ms wait) (Z.max 0 d)); try lia; simpl; auto.
Qed.

(** X5: with a truthy immediate flag, and a wait within the range of a
    timer delay (at most 2147483647), the wrapper acts on the leading
    edge: for a burst of calls, each less than the wait interval after the
    one before, made when the wrapper is idle, the wrapped function is
    invoked exactly once, at the time of the first call and with the first
    call's arguments; the later calls of the burst and the timer invoke
    nothing, and once the wait interval has passed after the last call the
    wrapper is idle again. *)
Theorem debounce_immediate_leading_edge {Args : Type} (wait : Z)
    (w : Timers.loop (Debounce.callback Args) (Debounce.closure Args))
    (first : Args) (calls : list (Z * Args)) (d : Z)
    (Hrange : Timers.in_range wait)
    (Hquiet : Timers.pending w = [])
    (Hnull : Debounce.timeout (Timers.st w) = None)
    (Hgaps : Forall (fun c => 0 <= fst c < wait) calls) :
  let w' := Debounce.run wait true (Debounce.burst first calls ++ [Debounce.Wait d]) w in
  Debounce.invoked (Timers.st w') =
    (Debounce.invoked (Timers.st w) ++ [(Timers.now w, first)])%list /\
  (if Z.max 0 wait <=? Z.max 0 d
   then Timers.pending w' = [] /\ Debounce.timeout (Timers.st w') = None
   else length (Timers.pending w') = 1%nat).
Proof.
  rewrite <- (delay_ms_in_range wait Hrange).
  apply debounce_leading_effective; [exact Hquiet | exact Hnull |].
  rewrite (delay_ms_in_range wait Hrange).
  eapply Forall_impl; [exact Hgaps|]. simpl. intros c Hc. lia.
Qed.

Lemma debounce_immediate_leading_edge_witness :
  Debounce.invoked (Timers.st
    (Debounce.run 200 true
       (Debounce.burst 1%nat [(100, 2%nat); (150, 3%nat)] ++ [Debounce.Wait 200])
       (Debounce.fresh 0 1))) = [(0, 1%nat)].
Proof.
  exact (proj1 (debounce_immediate_leading_edge 200 (Debounce.fresh 0 1) 1%nat
                  [(100, 2%nat); (150, 3%nat)] 200 ltac:(unfold Timers.in_range; lia)
                  eq_refl eq_refl ltac:(repeat constructor; simpl; lia))).
Defined.

(** ** Throttle: calls inside the window are dropped, not deferred *)

Section ThrottleMore.
Context {Args : Type}.
Variable limit : Z.
Variable func_throws : Z -> Args -> bool.

Local Abbreviation tloop' := (Timers.loop Throttle.callback (Throttle.closure Args)).

Lemma throttle_elapse_invoked (d : Z) (w : tloop') :
  Throttle.invoked (Timers.st (Timers.elapse Throttle.run_cb d w)) =
  Throttle.invoked (Timers.st w).
Proof.
  destruct w as [t0 h q c]. unfold Timers.elapse; simpl.
  destruct (fire_preserves Throttle.run_cb
              (fun c' => Throttle.invoked c' = Throttle.invoked c)
              (t0 + Z.max 0 d) q c) as [Hinv _].
  - intros t s' _ Hs'. destruct (Timers.cb t). exact Hs'.
  - reflexivity.
  - destruct (Timers.fire Throttle.run_cb (t0 + Z.max 0 d) q c). exact Hinv.
Qed.

Lemma throttled_invoked (a : Args) (w : tloop') :
  Throttle.invoked (Timers.st (Throttle.throttled limit func_throws a w)) =
    if Throttle.inThrottle (Timers.st w) then Throttle.invoked (Timers.st w)
    else (Throttle.invoked (Timers.st w) ++ [(Timers.now w, a)])%list.
Proof.
  unfold Throttle.throttled. destruct (Throttle.inThrottle (Timers.st w)); [reflexivity|].
  simpl. destruct (func_throws (Timers.now w) a); reflexivity.
Qed.

Lemma throttle_run_extends (es : list (Throttle.event Args)) (w : tloop') :
  exists extra,
    Throttle.invoked (Timers.st (Throttle.run limit func_throws es w)) =
      (Throttle.invoked (Timers.st w) ++ extra)%list /\
    sublist (map snd extra) (Traces.throttle_calls es).
Proof.
  revert w. induction es as [|e es IH]; intros w.
  - exists []. simpl. rewrite app_nil_r. split; [reflexivity | constructor].
  - change (Throttle.run limit func_throws (e :: es) w)
      with (Throttle.run limit func_throws es (Throttle.step limit func_throws w e)).
    destruct (IH (Throttle.step limit func_throws w e)) as (extra & Hinv & Hsub).
    destruct e as [a | d]; simpl in Hinv.
    + rewrite throttled_invoked in Hinv.
      destruct (Throttle.inThrottle (Timers.st w)).
      * exists extra. split; [exact Hinv|]. by apply sublist_cons.
      * exists ((Timers.now w, a) :: extra). rewrite <- app_assoc in Hinv.
        split; [exact Hinv|]. by apply sublist_skip.
    + rewrite throttle_elapse_invoked in Hinv.
      exists extra. split; [exact Hinv | exact Hsub].
Qed.

Lemma throttle_first_call (es : list (Throttle.event Args)) (w : tloop') :
  Throttle.invoked (Timers.st w) = [] ->
  Throttle.inThrottle (Timers.st w) = false ->
  Timers.pending w = [] ->
  head (map snd (Throttle.invoked (Timers.st (Throttle.run limit func_throws es w)))) =
  head (Traces.throttle_calls es).
Proof.
  revert w. induction es as [|e es IH]; intros w Hinv Hth Hq.
  - simpl. by rewrite Hinv.
  - change (Throttle.run limit func_throws (e :: es) w)
      with (Throttle.run limit func_throws es (Throttle.step limit func_throws w e)).
    destruct e as [a | d]; simpl.
    + destruct (throttle_run_extends es (Throttle.throttled limit func_throws a w))
        as (extra & -> & _).
      rewrite throttled_invoked, Hth, Hinv. reflexivity.
    + apply IH.
      * by rewrite throttle_elapse_invoked.
      * destruct w as [t0 h q c]. simpl in *. subst q. exact Hth.
      * destruct w as [t0 h q c]. simpl in *. subst q. reflexivity.
Qed.

End ThrottleMore.

(** X6: a throttled wrapper drops the calls it does not let through; it
    never defers them.  For every sequence of calls and waiting, whether
    the wrapped function returns or throws, the arguments the wrapped
    function was invoked with are a subsequence of the arguments of the
    calls, waiting alone never invokes the function, and the first call
    made to the wrapper is always let through. *)
Theorem throttle_drops_never_defers {Args : Type} (limit : Z)
    (func_throws : Z -> Args -> bool)
    (es : list (Throttle.event Args)) (t0 : Z) (h0 : positive) (d : Z) :
  let w := Throttle.run limit func_throws es (Throttle.fresh t0 h0) in
  sublist (map snd (Throttle.invoked (Timers.st w))) (Traces.throttle_calls es) /\
  Throttle.invoked (Timers.st (Throttle.run limit func_throws [Throttle.Wait d] w)) =
    Throttle.invoked (Timers.st w) /\
  head (map snd (Throttle.invoked (Timers.st w))) = head (Traces.throttle_calls es).
Proof.
  intros w. split; [|split].
  - destruct (throttle_run_extends limit func_throws es (Throttle.fresh t0 h0))
      as (extra & Hinv & Hsub).
    subst w. rewrite Hinv. exact Hsub.
  - apply throttle_elapse_invoked.
  - by apply throttle_first_call.
Qed.

(** ** The page as a whole: every caller of showNotification *)

Lemma only_toasts_showNotification (m : string) (ty : option string) (dur : option Z)
    (w : Notify.world) :
  Page.only_toasts w -> Page.only_toasts (Notify.showNotification m ty dur w).
Proof.
  intros Hw e He. destruct (showNotification_body m ty dur w) as [Hb Hn].
  rewrite Hb in He. rewrite Hn.
  apply elem_of_app in He as [He | He].
  - destruct (Hw e He). split; [lia | done].
  - apply list_elem_of_singleton in He as ->. simpl. split; [lia | done].
Qed.

Lemma only_toasts_elapse (d : Z) (w : Notify.world) :
  Page.only_toasts w -> Page.only_toasts (Timers.elapse Notify.run_cb d w).
Proof.
  destruct w as [t0 h q p]. unfold Page.only_toasts, Timers.elapse; simpl.
  intros Hw.
  destruct (fire_preserves Notify.run_cb
              (fun p' => forall e, e ∈ Notify.body p' ->
                 (Notify.el_id e < Notify.next_el p')%nat /\ Notify.tagName e = "div")
              (t0 + Z.max 0 d) q p) as [Hp _].
  - intros t s' _ Hs'. destruct (Timers.cb t) as [n]. simpl.
    destruct (Notify.parentNode n s'); [|exact Hs'].
    intros e He. simpl in He. apply list_elem_of_filter in He as [_ He]. by apply Hs'.
  - exact Hw.
  - destruct (Timers.fire Notify.run_cb (t0 + Z.max 0 d) q p). exact Hp.
Qed.

Lemma tracked_with_st (f : Notify.page -> Notify.page) (w : Notify.world) :
  (forall p, Notify.notificationTimeout (f p) = Notify.notificationTimeout p) ->
  Notify.tracked w -> Notify.tracked (Timers.with_st f w).
Proof.
  intros Hf. destruct w as [t0 h q p]. unfold Notify.tracked; simpl.
  destruct q as [|t [|u q]]; try done. by rewrite Hf.
Qed.

Lemma only_toasts_console (msg : string) (w : Notify.world) :
  Page.only_toasts w ->
  Page.only_toasts (Timers.with_st (Notify.console_error msg) w).
Proof. destruct w as [t0 h q p]. exact id. Qed.

(** The legacy copy leaves the page with one more notification and
    nothing else: the text area it works through is gone again. *)
Lemma fallback_body (nav : Clipboard.navigator) (text : string) (w : Notify.world) :
  Page.only_toasts w ->
  exists m ty,
    Notify.body (Timers.st (Clipboard.fallbackCopyTextToClipboard nav text w)) =
      (Notify.body (Timers.st w) ++
       [Notify.notification_node (S (Notify.next_el (Timers.st w))) m ty])%list /\
    Notify.next_el (Timers.st (Clipboard.fallbackCopyTextToClipboard nav text w)) =
      S (S (Notify.next_el (Timers.st w))).
Proof.
  intros Hw. unfold Clipboard.fallbackCopyTextToClipboard. cbv zeta.
  set (n := Notify.next_el (Timers.st w)).
  set (w2 := Timers.with_st (Notify.appendChild _) _).
  assert (Hb2 : Notify.body (Timers.st w2) =
                (Notify.body (Timers.st w) ++ [Clipboard.textArea_node n text])%list)
    by (destruct w as [t0 h q [nt bd ne cs]]; reflexivity).
  assert (Hn2 : Notify.next_el (Timers.st w2) = S n)
    by (destruct w as [t0 h q [nt bd ne cs]]; reflexivity).
  assert (Hkeep : filter (fun e => Notify.el_id e <> n) (Notify.body (Timers.st w)) =
                  Notify.body (Timers.st w)).
  { clear -Hw. unfold Page.only_toasts in Hw. fold n in Hw.
    induction (Notify.body (Timers.st w)) as [|e l IH]; [reflexivity|].
    rewrite filter_cons. rewrite decide_True.
    - f_equal. apply IH. intros e' He'. apply Hw. by apply elem_of_cons; right.
    - destruct (Hw e); [by apply elem_of_cons; left | lia]. }
  assert (Hshow : forall m ty dur (w3 : Notify.world),
            Notify.body (Timers.st w3) =
              (Notify.body (Timers.st w) ++ [Clipboard.textArea_node n text])%list ->
            Notify.next_el (Timers.st w3) = S n ->
            Notify.body (Timers.st (Timers.with_st (Notify.remove n)
                                      (Notify.showNotification m (Some ty) dur w3))) =
              (Notify.body (Timers.st w) ++ [Notify.notification_node (S n) m ty])%list /\
            Notify.next_el (Timers.st (Timers.with_st (Notify.remove n)
                                         (Notify.showNotification m (Some ty) dur w3))) =
              S (S n)).
  { intros m ty dur w3 Hb3 Hn3.
    destruct (showNotification_body m (Some ty) dur w3) as [Hb Hn].
    destruct (Notify.showNotification m (Some ty) dur w3) as [t1 h1 q1 [nt1 bd1 ne1 cs1]].
    simpl in *. subst bd1 ne1. rewrite Hb3, Hn3.
    split; [|reflexivity].
    rewrite !filter_app, Hkeep.
    rewrite (filter_cons _ (Clipboard.textArea_node n text)), filter_nil.
    rewrite decide_False by (simpl; intros Hne; by apply Hne).
    rewrite (filter_cons _ (Notify.notification_node _ _ _)), filter_nil.
    rewrite decide_True by (simpl; lia).
    by rewrite app_nil_r. }
  destruct (Clipboard.execCommand nav "copy") as [ok | err].
  - eexists _, _. by apply Hshow.
  - eexists _, _. apply Hshow; [|].
    + destruct w2 as [t2 h2 q2 [nt2 bd2 ne2 cs2]]. exact Hb2.
    + destruct w2 as [t2 h2 q2 [nt2 bd2 ne2 cs2]]. exact Hn2.
Qed.

Lemma tracked_fallback (nav : Clipboard.navigator) (text : string) (w : Notify.world) :
  Notify.tracked w ->
  Notify.tracked (Clipboard.fallbackCopyTextToClipboard nav text w).
Proof.
  intros Hw. unfold Clipboard.fallbackCopyTextToClipboard. cbv zeta.
  apply tracked_with_st; [reflexivity|].
  destruct (Clipboard.execCommand nav "copy");
    repeat first [apply tracked_showNotification | apply tracked_with_st; [reflexivity|]];
    exact Hw.
Qed.

Lemma only_toasts_fallback (nav : Clipboard.navigator) (text : string) (w : Notify.world) :
  Page.only_toasts w ->
  Page.only_toasts (Clipboard.fallbackCopyTextToClipboard nav text w).
Proof.
  intros Hw. destruct (fallback_body nav text w Hw) as (m & ty & Hb & Hn).
  intros e He. rewrite Hb in He. rewrite Hn.
  apply elem_of_app in He as [He | He].
  - destruct (Hw e He). split; [lia | done].
  - apply list_elem_of_singleton in He as ->. simpl. split; [lia | done].
Qed.

Lemma makeRequest_page {J : Type}
    (fetch : string -> gmap string Request.value -> Request.settled (Request.response J))
    (url : string) (options : option (gmap string Request.value)) (w : Notify.world) :
  snd (Request.makeRequest fetch url options w) = w \/
  snd (Request.makeRequest fetch url options w) =
    Notify.showNotification "Request failed. Please try again." (Some "danger") None
      (Timers.with_st (Notify.console_error "Request failed:") w).
Proof.
  unfold Request.makeRequest, Request.catch_, Request.then_, Request.settle,
    Request.effect, Request.throw, Request.json, Request.resolve.
  cbv zeta.
  destruct (fetch url (default ∅ options ∪ Request.defaultOptions)) as [[okr st body] | e];
    simpl; [|by right].
  destruct okr; simpl; [|by right].
  destruct body; simpl; [by left | by right].
Qed.

Lemma copyToClipboard_cases (nav : Clipboard.navigator) (text : string) (w : Notify.world) :
  Clipboard.copyToClipboard nav text w =
    Notify.showNotification "Copied to clipboard!" (Some "success") (Some 2000) w \/
  Clipboard.copyToClipboard nav text w = Clipboard.fallbackCopyTextToClipboard nav text w \/
  Clipboard.copyToClipboard nav text w =
    Clipboard.fallbackCopyTextToClipboard nav text
      (Timers.with_st (Notify.console_error "Failed to copy:") w).
Proof.
  unfold Clipboard.copyToClipboard.
  destruct (Clipboard.clipboard nav) as [writeText|]; [|by right; left].
  destruct (writeText text); [by left | by right; right].
Qed.

Lemma page_step_ok {J : Type} (e : Page.event J) (w : Notify.world) :
  Notify.tracked w /\ Page.only_toasts w ->
  Notify.tracked (Page.step w e) /\ Page.only_toasts (Page.step w e).
Proof.
  intros [Htr Hto]. destruct e as [m ty dur | | fetch url options | nav text | d]; simpl.
  - split; [by apply tracked_showNotification | by apply only_toasts_showNotification].
  - split; [by apply tracked_showNotification | by apply only_toasts_showNotification].
  - destruct (makeRequest_page fetch url options w) as [-> | ->]; [done|].
    split.
    + apply tracked_showNotification, tracked_with_st; [reflexivity | exact Htr].
    + by apply only_toasts_showNotification, only_toasts_console.
  - destruct (copyToClipboard_cases nav text w) as [-> | [-> | ->]].
    + split; [by apply tracked_showNotification | by apply only_toasts_showNotification].
    + split; [by apply tracked_fallback | by apply only_toasts_fallback].
    + split.
      * apply tracked_fallback, tracked_with_st; [reflexivity | exact Htr].
      * by apply only_toasts_fallback, only_toasts_console.
  - split; [by apply tracked_elapse | by apply only_toasts_elapse].
Qed.

Lemma page_run_ok {J : Type} (es : list (Page.event J)) (w : Notify.world) :
  Notify.tracked w /\ Page.only_toasts w ->
  Notify.tracked (Page.run es w) /\ Page.only_toasts (Page.run es w).
Proof.
  revert w. induction es as [|e es IH]; intros w Hw; simpl; [exact Hw|].
  by apply IH, page_step_ok.
Qed.

Lemma page_fresh_ok (t0 : Z) :
  Notify.tracked (Notify.fresh t0) /\ Page.only_toasts (Notify.fresh t0).
Proof.
  split; [exact I|]. intros e He. simpl in He. by apply elem_of_nil in He.
Qed.

Lemma distinct_snoc (l : list Notify.element) (e : Notify.element) (n : nat) :
  (forall x, x ∈ l -> (Notify.el_id x < n)%nat) -> (n <= Notify.el_id e)%nat ->
  NoDup (Notify.el_id <$> l) -> NoDup (Notify.el_id <$> (l ++ [e])%list).
Proof.
  intros Hlt He Hnd. rewrite fmap_app. apply NoDup_app. split; [exact Hnd|]. split.
  - intros i Hi Hi'. apply list_elem_of_singleton in Hi'. subst i.
    apply list_elem_of_fmap in Hi as (x & Hx & Hin). specialize (Hlt x Hin). lia.
  - apply NoDup_singleton.
Qed.

Lemma distinct_showNotification (m : string) (ty : option string) (dur : option Z)
    (w : Notify.world) :
  Page.only_toasts w -> Page.distinct w ->
  Page.distinct (Notify.showNotification m ty dur w).
Proof.
  intros Hto Hd. unfold Page.distinct.
  destruct (showNotification_body m ty dur w) as [-> _].
  apply (distinct_snoc _ _ (Notify.next_el (Timers.st w))); [|simpl; lia | exact Hd].
  intros x Hx. by destruct (Hto x Hx).
Qed.

Lemma distinct_elapse (d : Z) (w : Notify.world) :
  Page.distinct w -> Page.distinct (Timers.elapse Notify.run_cb d w).
Proof.
  destruct w as [t0 h q p]. unfold Page.distinct, Timers.elapse; simpl.
  intros Hw.
  destruct (fire_preserves Notify.run_cb
              (fun p' => NoDup (Notify.el_id <$> Notify.body p'))
              (t0 + Z.max 0 d) q p) as [Hp _].
  - intros t s' _ Hs'. destruct (Timers.cb t) as [n]. simpl.
    destruct (Notify.parentNode n s'); [|exact Hs']. simpl.
    apply (sublist_NoDup _ _ Hs'), fmap_sublist, sublist_filter.
  - exact Hw.
  - destruct (Timers.fire Notify.run_cb (t0 + Z.max 0 d) q p). exact Hp.
Qed.

Lemma distinct_console (msg : string) (w : Notify.world) :
  Page.distinct w -> Page.distinct (Timers.with_st (Notify.console_error msg) w).
Proof. destruct w as [t0 h q p]. exact id. Qed.

Lemma distinct_fallback (nav : Clipboard.navigator) (text : string) (w : Notify.world) :
  Page.only_toasts w -> Page.distinct w ->
  Page.distinct (Clipboard.fallbackCopyTextToClipboard nav text w).
Proof.
  intros Hto Hd. unfold Page.distinct.
  destruct (fallback_body nav text w Hto) as (m & ty & -> & _).
  apply (distinct_snoc _ _ (Notify.next_el (Timers.st w))); [|simpl; lia | exact Hd].
  intros x Hx. by destruct (Hto x Hx).
Qed.

Lemma page_step_distinct {J : Type} (e : Page.event J) (w : Notify.world) :
  Page.only_toasts w -> Page.distinct w -> Page.distinct (Page.step w e).
Proof.
  intros Hto Hd. destruct e as [m ty dur | | fetch url options | nav text | d]; simpl.
  - by apply distinct_showNotification.
  - by apply distinct_showNotification.
  - destruct (makeRequest_page fetch url options w) as [-> | ->]; [done|].
    apply distinct_showNotification;
      [by apply only_toasts_console | by apply distinct_console].
  - destruct (copyToClipboard_cases nav text w) as [-> | [-> | ->]].
    + by apply distinct_showNotification.
    + by apply distinct_fallback.
    + apply distinct_fallback; [by apply only_toasts_console | by apply distinct_console].
  - by apply distinct_elapse.
Qed.

Lemma page_run_distinct {J : Type} (es : list (Page.event J)) (w : Notify.world) :
  Notify.tracked w /\ Page.only_toasts w -> Page.distinct w ->
  Page.distinct (Page.run es w).
Proof.
  revert w. induction es as [|e es IH]; intros w Hw Hd; simpl; [exact Hd|].
  apply IH; [by apply page_step_ok | apply page_step_distinct; [apply Hw | exact Hd]].
Qed.

(** X7: the one-timer discipline of [showNotification] holds across all
    its callers.  After any sequence of notifications, shortcut help,
    requests (however the network answers), clipboard copies (whatever the
    browser supports) and waiting, at most one notification timer is
    pending and [notificationTimeout] holds its handle; and the page holds
    only notification nodes, each a [div] made earlier, no two of them
    with the same identity: no text area of a legacy copy is left
    behind. *)
Theorem page_keeps_one_timer {J : Type} (es : list (Page.event J)) (t0 : Z) :
  let w := Page.run es (Notify.fresh t0) in
  (length (Timers.pending w) <= 1)%nat /\
  (forall t, t ∈ Timers.pending w ->
     Notify.notificationTimeout (Timers.st w) = Some (Timers.tid t)) /\
  (forall e, e ∈ Notify.body (Timers.st w) ->
     (Notify.el_id e < Notify.next_el (Timers.st w))%nat /\ Notify.tagName e = "div") /\
  NoDup (Notify.el_id <$> Notify.body (Timers.st w)).
Proof.
  intros w. destruct (page_run_ok es (Notify.fresh t0) (page_fresh_ok t0)) as [Htr Hto].
  destruct (tracked_pending w Htr) as [Hlen Hh].
  split; [exact Hlen|]. split; [exact Hh|]. split; [exact Hto|].
  apply (page_run_distinct es (Notify.fresh t0) (page_fresh_ok t0)).
  apply NoDup_nil_2.
Qed.

(** X8: a clipboard copy changes the page by exactly one notification.
    On every path (clipboard API, legacy command returning, legacy command
    throwing), after any earlier activity on the page, the nodes on the
    page afterwards are the nodes before followed by one new notification;
    the text area of the legacy path has been removed again. *)
Theorem copy_adds_exactly_one_toast {J : Type} (es : list (Page.event J)) (t0 : Z)
    (nav : Clipboard.navigator) (text : string) :
  let w := Page.run es (Notify.fresh t0) in
  exists n m ty,
    Notify.body (Timers.st (Clipboard.copyToClipboard nav text w)) =
      (Notify.body (Timers.st w) ++ [Notify.notification_node n m ty])%list.
Proof.
  intros w. destruct (page_run_ok es (Notify.fresh t0) (page_fresh_ok t0)) as [_ Hto].
  fold w in Hto.
  destruct (copyToClipboard_cases nav text w) as [-> | [-> | ->]].
  - eexists _, _, _. apply showNotification_body.
  - destruct (fallback_body nav text w Hto) as (m & ty & Hb & _). by eexists _, _, _.
  - destruct (fallback_body nav text
                (Timers.with_st (Notify.console_error "Failed to copy:") w)) as (m & ty & Hb & _).
    + by apply only_toasts_console.
    + eexists _, m, ty. rewrite Hb. reflexivity.
Qed.

(** X9: the notification shown last is always dismissed.  After any
    earlier activity on the page, a notification that is shown and then
    left alone for its timeout is on the page until then and is removed
    at the timeout: the page is back to the nodes it had before the call,
    and no timer is left. *)
Theorem latest_notification_is_dismissed {J : Type} (es : list (Page.event J)) (t0 : Z)
    (m : string) (ty : option string) (dur : option Z) (d : Z)
    (Hd : Timers.delay_ms (default 3000 dur) <= Z.max 0 d) :
  let w := Page.run es (Notify.fresh t0) in
  let w1 := Notify.showNotification m ty dur w in
  let w2 := Timers.elapse Notify.run_cb d w1 in
  Notify.shown (Notify.next_el (Timers.st w)) w1 /\
  Notify.body (Timers.st w2) = Notify.body (Timers.st w) /\
  Timers.pending w2 = [].
Proof.
  intros w w1 w2.
  destruct (page_run_ok es (Notify.fresh t0) (page_fresh_ok t0)) as [Htr Hto].
  fold w in Htr, Hto.
  destruct (showNotification_pending m ty dur w Htr) as [Hq _].
  destruct (showNotification_body m ty dur w) as [Hb _].
  assert (Hnow : Timers.now w1 = Timers.now w).
  { subst w1. clear. destruct w as [t1 h q [nt bd ne cs]].
    unfold Notify.showNotification; simpl. destruct nt; reflexivity. }
  fold w1 in Hq, Hb.
  split.
  - eexists. rewrite Hb. split; [apply elem_of_app; right; by apply list_elem_of_singleton|].
    reflexivity.
  - subst w2. destruct w1 as [t1 h1 q1 [nt1 bd1 ne1 cs1]]. simpl in *. subst q1 bd1 t1.
    unfold Timers.elapse; simpl.
    destruct (Z.leb_spec (Timers.now w + Timers.delay_ms (default 3000 dur))
                (Timers.now w + Z.max 0 d)) as [_ | Hlt]; [|lia].
    simpl. unfold Notify.parentNode; simpl.
    rewrite existsb_app; simpl. rewrite Nat.eqb_refl, orb_true_r. simpl.
    split; [|reflexivity].
    rewrite filter_app, filter_cons, filter_nil.
    rewrite decide_False by (simpl; intros Hne; by apply Hne).
    rewrite app_nil_r.
    clear -Hto. unfold Page.only_toasts in Hto.
    induction (Notify.body (Timers.st w)) as [|e l IH]; [reflexivity|].
    rewrite filter_cons, decide_True.
    + f_equal. apply IH. intros e' He'. apply Hto. by apply elem_of_cons; right.
    + destruct (Hto e); [by apply elem_of_cons; left | lia].
Qed.

Lemma latest_notification_is_dismissed_witness :
  Notify.body (Timers.st
    (Timers.elapse Notify.run_cb 2000
       (Notify.showNotification "Saved" (Some "success") (Some 2000)
          (Page.run (J := unit) [Page.ShortcutsHelp; Page.Wait 100] (Notify.fresh 0))))) =
  Notify.body (Timers.st
    (Page.run (J := unit) [Page.ShortcutsHelp; Page.Wait 100] (Notify.fresh 0))).
Proof.
  exact (proj1 (proj2 (latest_notification_is_dismissed (J := unit)
                         [Page.ShortcutsHelp; Page.Wait 100] 0
                         "Saved" (Some "success") (Some 2000) 2000 ltac:(by vm_compute)))).
Defined.

(** ** The refresh indicator is transient *)

Lemma refresh_fire_settles (T : Z) (q : list (Timers.timer Refresh.callback)) :
  forall opacity : gmap nat string,
  (forall element v, opacity !! element = Some v ->
     v = "1" \/ exists t, t ∈ q /\ Timers.cb t = Refresh.RestoreOpacity element) ->
  (forall element v, snd (Timers.fire Refresh.run_cb T q opacity) !! element = Some v ->
     v = "1" \/
     exists t, t ∈ fst (Timers.fire Refresh.run_cb T q opacity) /\
               Timers.cb t = Refresh.RestoreOpacity element) /\
  (forall t, t ∈ fst (Timers.fire Refresh.run_cb T q opacity) -> t ∈ q) /\
  ((forall t, t ∈ q -> Timers.due t <= T) ->
   fst (Timers.fire Refresh.run_cb T q opacity) = []).
Proof.
  induction q as [|t q IH]; intros opacity Hop; simpl.
  - split; [exact Hop|]. split; [auto | reflexivity].
  - destruct (Z.leb_spec (Timers.due t) T) as [Hdue | Hlate]; simpl.
    + destruct (IH (Refresh.run_cb (Timers.due t) (Timers.cb t) opacity)) as (H1 & H2 & H3).
      * intros element v Hv. destruct (Timers.cb t) as [el] eqn:Hcb. simpl in Hv.
        destruct (decide (el = element)) as [-> | Hne].
        -- rewrite lookup_insert_eq in Hv. left. congruence.
        -- rewrite lookup_insert_ne in Hv by exact Hne.
           destruct (Hop element v Hv) as [-> | (u & Hu & Hcbu)]; [by left|].
           right. exists u. split; [|exact Hcbu].
           apply elem_of_cons in Hu as [-> | Hu]; [congruence | exact Hu].
      * split; [exact H1|]. split.
        -- intros u Hu. apply elem_of_cons. right. by apply H2.
        -- intros Hall. apply H3. intros u Hu. apply Hall, elem_of_cons. by right.
    + split; [exact Hop|]. split; [auto|].
      intros Hall. specialize (Hall t ltac:(by apply elem_of_cons; left)). lia.
Qed.

Lemma settling_step (e : Refresh.event) (w : Refresh.world) :
  Refresh.settling w -> Refresh.settling (Refresh.step w e).
Proof.
  intros [Hdue Hop]. destruct e as [v element | d]; simpl.
  - unfold Refresh.interval_callback. destruct (String.eqb v "visible"); [|by split].
    destruct w as [t0 h q opacity]. unfold Refresh.settling, Refresh.refreshElement; simpl in *.
    split.
    + intros t Ht. apply elem_of_enqueue in Ht as [-> | Ht]; [|by apply Hdue].
      simpl. change (Timers.delay_ms 500) with 500. lia.
    + intros el v' Hv'. destruct (decide (element = el)) as [-> | Hne].
      * right. eexists. split; [apply elem_of_enqueue; by left | reflexivity].
      * rewrite lookup_insert_ne in Hv' by exact Hne.
        destruct (Hop el v' Hv') as [-> | (u & Hu & Hcb)]; [by left|].
        right. exists u. split; [apply elem_of_enqueue; by right | exact Hcb].
  - destruct w as [t0 h q opacity]. unfold Refresh.settling, Timers.elapse; simpl in *.
    destruct (refresh_fire_settles (t0 + Z.max 0 d) q opacity Hop) as (H1 & H2 & _).
    destruct (Timers.fire Refresh.run_cb (t0 + Z.max 0 d) q opacity) as [q' s']; simpl in *.
    split; [|exact H1].
    intros t Ht. specialize (Hdue t (H2 t Ht)). lia.
Qed.

Lemma settling_run (es : list Refresh.event) (w : Refresh.world) :
  Refresh.settling w -> Refresh.settling (Refresh.run es w).
Proof.
  revert w. induction es as [|e es IH]; intros w Hw; simpl; [exact Hw|].
  by apply IH, settling_step.
Qed.

(** X10: the dimming of [refreshElement] is always undone.  After any
    sequence of auto-refresh ticks (on any elements, overlapping or not)
    and waiting, once 500 ms pass without a further refresh no timer is
    pending and every element whose opacity was ever set is back at
    opacity 1; and a tick while the document is not visible changes
    nothing. *)
Theorem refresh_dimming_is_transient (es : list Refresh.event) (t0 : Z) (h0 : positive)
    (d : Z) (v : string) (element : nat) :
  let w := Refresh.run es (Refresh.fresh t0 h0) in
  (500 <= d ->
   Timers.pending (Timers.elapse Refresh.run_cb d w) = [] /\
   forall el o, Timers.st (Timers.elapse Refresh.run_cb d w) !! el = Some o -> o = "1") /\
  (v <> "visible" -> Refresh.interval_callback v element w = w).
Proof.
  intros w.
  assert (Hw : Refresh.settling w).
  { apply settling_run. split; intros; [by apply elem_of_nil in H | done]. }
  split.
  - intros Hd. destruct Hw as [Hdue Hop].
    destruct w as [t1 h q opacity]. unfold Timers.elapse; simpl in *.
    destruct (refresh_fire_settles (t1 + Z.max 0 d) q opacity Hop) as (H1 & _ & H3).
    destruct (Timers.fire Refresh.run_cb (t1 + Z.max 0 d) q opacity) as [q' s']; simpl in *.
    assert (q' = []) as -> by (apply H3; intros t Ht; specialize (Hdue t Ht); lia).
    split; [reflexivity|].
    intros el o Ho. destruct (H1 el o Ho) as [-> | (t & Ht & _)]; [done|].
    by apply elem_of_nil in Ht.
  - intros Hv. unfold Refresh.interval_callback.
    destruct (String.eqb_spec v "visible"); [done | reflexivity].
Qed.

(** ** Relative timestamps *)

Lemma formatTimeDifference_num_Some (d : Z) :
  Timestamps.formatTimeDifference_num (Some d) = TimeDiff.formatTimeDifference d.
Proof. reflexivity. Qed.

Lemma formatTimeDifference_recent (d : Z) :
  d < 60000 -> TimeDiff.formatTimeDifference d = "Just now".
Proof.
  intros Hd. unfold TimeDiff.formatTimeDifference. cbv zeta.
  destruct (floor_units d) as (Hm & Hh & Hdays). rewrite Hdays, Hh, Hm.
  assert (d / 86400000 < 1) by (apply Z.div_lt_upper_bound; lia).
  assert (d / 3600000 < 1) by (apply Z.div_lt_upper_bound; lia).
  assert (d / 60000 < 1) by (apply Z.div_lt_upper_bound; lia).
  destruct (Z.ltb_spec 0 (d / 86400000)); [lia|].
  destruct (Z.ltb_spec 0 (d / 3600000)); [lia|].
  destruct (Z.ltb_spec 0 (d / 60000)); [lia|].
  reflexivity.
Qed.

Lemma formatTimeDifference_num_label (now : Z) (ts : string) :
  Timestamps.formatTimeDifference_num (Timestamps.difference now (Some ts)) =
  Timestamps.label now ts.
Proof.
  unfold Timestamps.difference, Timestamps.label. simpl.
  destruct (ParseInt.parseInt ts) as [t|]; [|reflexivity].
  rewrite formatTimeDifference_num_Some.
  destruct (Z.ltb_spec (now - t) 60000); [by apply formatTimeDifference_recent | reflexivity].
Qed.

Lemma update_from_targets (clock : nat -> Z) (l : list Timestamps.node) (k0 : nat) :
  Timestamps.target <$> Timestamps.update_from clock k0 l = Timestamps.node_id <$> l.
Proof.
  revert k0. induction l as [|x l IH]; intros k0; simpl; [reflexivity|].
  by rewrite IH.
Qed.

Lemma update_from_lookup (clock : nat -> Z) (l : list Timestamps.node) :
  forall (k0 k : nat) (el : Timestamps.node),
  l !! k = Some el ->
  Timestamps.update_from clock k0 l !! k =
    Some (Timestamps.Assign (Timestamps.node_id el)
            (Timestamps.formatTimeDifference_num
               (Timestamps.difference (clock (k0 + k)%nat)
                  (Timestamps.attributes el !! "data-timestamp")))).
Proof.
  induction l as [|x l IH]; intros k0 k el Hk; [by destruct k|].
  destruct k as [|k]; simpl in Hk.
  - injection Hk as ->. simpl. by rewrite Nat.add_0_r.
  - simpl. rewrite (IH (S k0) k el Hk). by rewrite Nat.add_succ_r.
Qed.

(** X11: [updateTimestamps] assigns a text to the elements that carry a
    data-timestamp attribute, once each and in document order, and to no
    other element.  The text is "Just now" when the attribute is not a
    number ([parseInt] gives NaN), when the timestamp lies in the future,
    and when it lies less than a minute back; otherwise it is the
    formatted difference to the clock.  The cases with a number are
    stated for a timestamp, a clock and a difference that are safe
    integers. *)
Theorem updateTimestamps_labels (clock : nat -> Z) (doc : list Timestamps.node) :
  let writes := Timestamps.updateTimestamps clock doc in
  Timestamps.target <$> writes =
    Timestamps.node_id <$> Timestamps.querySelectorAll doc /\
  (forall el, el ∈ Timestamps.querySelectorAll doc <->
     is_Some (Timestamps.attributes el !! "data-timestamp") /\ el ∈ doc) /\
  (forall k el, Timestamps.querySelectorAll doc !! k = Some el ->
     exists ts text,
       Timestamps.attributes el !! "data-timestamp" = Some ts /\
       writes !! k = Some (Timestamps.Assign (Timestamps.node_id el) text) /\
       (ParseInt.parseInt ts = None -> text = "Just now") /\
       (forall t, ParseInt.parseInt ts = Some t ->
          safe_integer t -> safe_integer (clock k) -> safe_integer (clock k - t) ->
          (clock k < t + 60000 -> text = "Just now") /\
          (t + 60000 <= clock k -> text = TimeDiff.formatTimeDifference (clock k - t)))).
Proof.
  intros writes. split; [apply update_from_targets|].
  split.
  { intros el. unfold Timestamps.querySelectorAll.
    apply (list_elem_of_filter
             (fun n => is_Some (Timestamps.attributes n !! "data-timestamp")) doc el). }
  intros k el Hk.
  assert (Hin : el ∈ Timestamps.querySelectorAll doc) by (by eapply list_elem_of_lookup_2).
  apply list_elem_of_filter in Hin as [[ts Hts] _].
  exists ts, (Timestamps.label (clock k) ts).
  split; [exact Hts|]. split.
  - unfold writes, Timestamps.updateTimestamps.
    rewrite (update_from_lookup clock _ 0 k el Hk), Hts.
    by rewrite formatTimeDifference_num_label.
  - unfold Timestamps.label. split; [by intros ->|].
    intros t -> _ _ _. split.
    + intros Hlt. destruct (Z.ltb_spec (clock k - t) 60000); [reflexivity | lia].
    + intros Hge. destruct (Z.ltb_spec (clock k - t) 60000); [lia | reflexivity].
Qed.

(** ** Keyboard shortcuts *)

(** X12: the keydown handler leaves ordinary typing alone.  A key
    pressed without Ctrl or Cmd, other than Escape, has no effect at all;
    whenever the handler returns, the default action is prevented only for
    Ctrl/Cmd+S and Ctrl/Cmd+/, a button is clicked only for the key "s", a
    modal is hidden only for Escape, and the page changes only by the
    shortcut help of Ctrl/Cmd+/; the handler throws exactly when Escape is
    pressed while the open modal has no Bootstrap instance. *)
Theorem keydown_handler_effects (e : Shortcuts.keydown) (doc : Shortcuts.document)
    (w : Notify.world) :
  (Shortcuts.ctrlKey e = false -> Shortcuts.metaKey e = false ->
   Shortcuts.key e <> "Escape" ->
   Shortcuts.on_keydown e doc w = Some (Shortcuts.Outcome false None None w)) /\
  (forall o, Shortcuts.on_keydown e doc w = Some o ->
     (Shortcuts.defaultPrevented o = true ->
        (Shortcuts.ctrlKey e || Shortcuts.metaKey e) = true /\
        (Shortcuts.key e = "s" \/ Shortcuts.key e = "/")) /\
     (is_Some (Shortcuts.clicked o) ->
        Shortcuts.key e = "s" /\ Shortcuts.clicked o = Shortcuts.submitBtn doc) /\
     (is_Some (Shortcuts.hidden o) -> Shortcuts.key e = "Escape") /\
     (Shortcuts.page o = w \/
      (Shortcuts.key e = "/" /\ Shortcuts.page o = Page.showKeyboardShortcuts w))) /\
  (Shortcuts.on_keydown e doc w = None <->
   Shortcuts.key e = "Escape" /\ Shortcuts.openModal doc = Some None).
Proof.
  destruct e as [ctrl meta k], doc as [btn modal].
  unfold Shortcuts.on_keydown, Shortcuts.save_shortcut, Shortcuts.escape_shortcut,
    Shortcuts.help_shortcut; simpl.
  destruct (String.eqb_spec k "s") as [-> | Hs];
    [|destruct (String.eqb_spec k "Escape") as [-> | He];
      [|destruct (String.eqb_spec k "/") as [-> | Hh]]];
    simpl.
  - split; [intros -> -> _; reflexivity|]. split.
    + intros o Ho. destruct (ctrl || meta) eqn:Hmod; simpl in Ho.
      * destruct btn as [b|]; injection Ho as <-; simpl;
          (split; [intros; auto|]); (split; [intros [? ?]; by simplify_eq|]);
          (split; [intros [? ?]; by simplify_eq|]); auto.
      * injection Ho as <-; simpl.
        split; [done|]. split; [intros [? ?]; by simplify_eq|].
        split; [intros [? ?]; by simplify_eq|]. auto.
    + split; [|intros [? _]; done].
      destruct (ctrl || meta); simpl; [destruct btn|]; done.
  - rewrite !andb_false_r. simpl. split; [intros _ _ Hne; done|]. split.
    + intros o Ho. destruct modal as [[m|]|]; simplify_eq; simpl;
        (split; [done|]); (split; [intros [? ?]; by simplify_eq|]); auto.
    + destruct modal as [[m|]|]; simpl; split; intros; try done;
        destruct H as [_ ?]; done.
  - rewrite !andb_false_r. simpl. split.
    + intros -> -> _. reflexivity.
    + split.
      * intros o Ho. destruct (ctrl || meta) eqn:Hmod; simpl in Ho;
          injection Ho as <-; simpl;
          (split; [intros; auto|]); (split; [intros [? ?]; by simplify_eq|]);
          (split; [intros [? ?]; by simplify_eq|]); auto.
      * split; [|intros [? _]; done]. destruct (ctrl || meta); done.
  - rewrite !andb_false_r. simpl. split; [reflexivity|]. split.
    + intros o [= <-]. simpl.
      split; [done|]. split; [intros [? ?]; by simplify_eq|].
      split; [intros [? ?]; by simplify_eq|]. auto.
    + split; [done | intros [? _]; done].
Qed.

(** ** Form validation *)

(** One round of [trim_start]: it stops, or it goes on from a shorter
    string. *)
Lemma trim_start_step (s : string) :
  ParseInt.trim_start s = s \/
  exists s', (String.length s' < String.length s)%nat /\
             ParseInt.trim_start s = ParseInt.trim_start s'.
Proof.
  destruct s as [|c1 s1]; [by left|]. simpl.
  destruct (ParseInt.is_space c1); [right; exists s1; split; [simpl; lia | done]|].
  destruct s1 as [|c2 s2]; [by left|].
  destruct (ParseInt.is_space2 c1 c2); [right; exists s2; split; [simpl; lia | done]|].
  destruct s2 as [|c3 s3]; [by left|].
  destruct (ParseInt.is_space3 c1 c2 c3); [right; exists s3; split; [simpl; lia | done]|].
  by left.
Qed.

Lemma trim_start_idem (s : string) :
  ParseInt.trim_start (ParseInt.trim_start s) = ParseInt.trim_start s.
Proof.
  remember (String.length s) as n eqn:Hn.
  revert s Hn. induction (lt_wf n) as [n _ IH]. intros s ->.
  destruct (trim_start_step s) as [Hs | (s' & Hlen & Hs)].
  - by rewrite !Hs.
  - rewrite Hs. by apply (IH (String.length s')).
Qed.

Lemma trim_blank (s : string) : String.eqb (Forms.trim s) "" = Forms.blank s.
Proof.
  unfold Forms.trim, Forms.blank.
  destruct (ParseInt.trim_start s) as [|c t] eqn:Ht; [reflexivity|].
  cbn [Forms.trim_end]. unfold Forms.blank.
  rewrite <- Ht, trim_start_idem, Ht. reflexivity.
Qed.

Lemma core_alter_children (g : Forms.dnode -> list nat) (p f : nat)
    (d : gmap nat Forms.dnode) :
  Forms.core (alter (fun pn => Forms.set_childNodes (g pn) pn) p d) f = Forms.core d f.
Proof.
  unfold Forms.core. destruct (decide (p = f)) as [-> | Hne].
  - rewrite lookup_alter_eq. by destruct (d !! f).
  - by rewrite lookup_alter_ne.
Qed.

Lemma core_alter_ne (h : Forms.dnode -> Forms.dnode) (c f : nat) (d : gmap nat Forms.dnode) :
  f <> c -> Forms.core (alter h c d) f = Forms.core d f.
Proof. intros Hne. unfold Forms.core. by rewrite lookup_alter_ne. Qed.

Lemma core_insert_ne (nd : Forms.dnode) (k f : nat) (d : gmap nat Forms.dnode) :
  f <> k -> Forms.core (<[k := nd]> d) f = Forms.core d f.
Proof. intros Hne. unfold Forms.core. by rewrite lookup_insert_ne. Qed.

Lemma core_insert_eq (nd : Forms.dnode) (k : nat) (d : gmap nat Forms.dnode) :
  Forms.core (<[k := nd]> d) k =
    Some (Forms.classList nd, Forms.value nd, Forms.parentNode nd).
Proof. unfold Forms.core. by rewrite lookup_insert_eq. Qed.

Lemma core_remove (e f : nat) (d : gmap nat Forms.dnode) :
  f <> e -> Forms.core (Forms.remove e d) f = Forms.core d f.
Proof.
  intros Hne. unfold Forms.remove.
  destruct (d !! e) as [nd|]; [|reflexivity].
  destruct (Forms.parentNode nd) as [p|]; [|reflexivity].
  rewrite core_alter_ne by exact Hne.
  apply (core_alter_children (fun pn => filter (fun c => c <> e) (Forms.childNodes pn))).
Qed.

Lemma dom_remove (e : nat) (d : gmap nat Forms.dnode) :
  dom (Forms.remove e d) = dom d.
Proof.
  unfold Forms.remove.
  destruct (d !! e) as [nd|]; [|reflexivity].
  destruct (Forms.parentNode nd) as [p|]; [|reflexivity].
  by rewrite !dom_alter_L.
Qed.

Lemma core_appendChild (p c f : nat) (d : gmap nat Forms.dnode) :
  f <> c -> Forms.core (Forms.appendChild p c d) f = Forms.core d f.
Proof.
  intros Hne. unfold Forms.appendChild.
  rewrite core_alter_ne by exact Hne.
  apply (core_alter_children (fun pn => (Forms.childNodes pn ++ [c])%list)).
Qed.

Lemma core_Some (d : gmap nat Forms.dnode) (f : nat) cl v p :
  Forms.core d f = Some (cl, v, p) <->
  exists nd, d !! f = Some nd /\ Forms.classList nd = cl /\ Forms.value nd = v /\
             Forms.parentNode nd = p.
Proof.
  unfold Forms.core. destruct (d !! f) as [nd|]; simpl.
  - split.
    + intros [= <- <- <-]. by exists nd.
    + intros (nd' & [= <-] & <- & <- & <-). reflexivity.
  - split; [done | intros (nd' & Hnd & _); done].
Qed.

Section FormFacts.
Variable select_required : gmap nat Forms.dnode -> nat -> list nat.
Variable select_feedback : gmap nat Forms.dnode -> nat -> option nat.
Hypothesis Hsound : Forms.feedback_sound select_feedback.

Lemma guarded_in_dom (d : gmap nat Forms.dnode) (L : list nat) (f : nat) :
  Forms.guarded d L -> f ∈ L -> f ∈ dom d.
Proof.
  intros Hg Hf. destruct (Hg f Hf) as (cl & v & p & Hc & _).
  apply core_Some in Hc as (nd & Hnd & _). apply elem_of_dom. by exists nd.
Qed.

Lemma clearFieldError_spec (d : gmap nat Forms.dnode) (L : list nat) (g : nat) :
  Forms.guarded d L -> g ∈ L ->
  exists d',
    Forms.clearFieldError select_feedback g d = Some d' /\
    (forall f, f ∈ L -> f <> g -> Forms.core d' f = Forms.core d f) /\
    (forall cl v p, Forms.core d g = Some (cl, v, p) ->
       Forms.core d' g = Some (filter (fun c => c <> "is-invalid") cl, v, p)) /\
    dom d' = dom d.
Proof.
  intros Hg HgL.
  destruct (Hg g HgL) as (cl & v & p & Hc & Hnf).
  pose proof Hc as Hc0.
  apply core_Some in Hc as (nd & Hnd & <- & Hv & Hp).
  unfold Forms.clearFieldError. rewrite Hnd. simpl. rewrite Hp. simpl.
  set (d1 := <[g := Forms.classList_remove "is-invalid" nd]> d).
  assert (Hd1g : Forms.core d1 g =
                 Some (filter (fun c => c <> "is-invalid") (Forms.classList nd),
                       Some v, Some p)).
  { subst d1. rewrite core_insert_eq. simpl. by rewrite Hp, Hv. }
  assert (Hd1f : forall f, f <> g -> Forms.core d1 f = Forms.core d f)
    by (intros f Hf; subst d1; by rewrite core_insert_ne).
  assert (Hdom1 : dom d1 = dom d)
    by (subst d1; apply dom_insert_lookup_L; by exists nd).
  destruct (select_feedback d1 p) as [e|] eqn:He.
  - destruct (Hsound d1 p e He) as (nde & Hnde & Hcls).
    assert (HeL : forall f, f ∈ L -> f <> e).
    { intros f Hf ->. destruct (decide (e = g)) as [-> | Hne].
      - apply core_Some in Hd1g as (nd' & Hnd' & Hcl & _).
        rewrite Hnde in Hnd'. injection Hnd' as <-.
        rewrite Hcl in Hcls. apply list_elem_of_filter in Hcls as [_ Hcls]. done.
      - destruct (Hg e Hf) as (cl' & v' & p' & Hc' & Hnf').
        rewrite <- (Hd1f e Hne) in Hc'.
        apply core_Some in Hc' as (nd' & Hnd' & Hcl & _).
        rewrite Hnde in Hnd'. injection Hnd' as <-. by rewrite Hcl in Hcls. }
    exists (Forms.remove e d1). split; [reflexivity|]. split; [|split].
    + intros f Hf Hfg. rewrite core_remove by (by apply HeL). by apply Hd1f.
    + intros cl0 v0 p' Hc'. rewrite Hc0 in Hc'. injection Hc' as <- <- <-.
      rewrite core_remove by (by apply HeL). exact Hd1g.
    + by rewrite dom_remove.
  - exists d1. split; [reflexivity|]. split; [|split].
    + intros f _ Hfg. by apply Hd1f.
    + intros cl0 v0 p' Hc'. rewrite Hc0 in Hc'. injection Hc' as <- <- <-. exact Hd1g.
    + exact Hdom1.
Qed.

Lemma showFieldError_spec (d : gmap nat Forms.dnode) (L : list nat) (g : nat)
    (message : string) :
  Forms.guarded d L -> g ∈ L ->
  exists d',
    Forms.showFieldError select_feedback g message d = Some d' /\
    (forall f, f ∈ L -> f <> g -> Forms.core d' f = Forms.core d f) /\
    (forall cl v p, Forms.core d g = Some (cl, v, p) ->
       exists cl', Forms.core d' g = Some (cl', v, p) /\ "is-invalid" ∈ cl' /\
                   ("invalid-feedback" ∈ cl' -> "invalid-feedback" ∈ cl)) /\
    dom d ⊆ dom d'.
Proof.
  intros Hg HgL.
  destruct (clearFieldError_spec d L g Hg HgL) as (d1 & Hclear & Hother & Hself & Hdom).
  destruct (Hg g HgL) as (cl & v & p & Hc & Hnf).
  pose proof (Hself _ _ _ Hc) as Hc1.
  pose proof Hc1 as Hc1'.
  apply core_Some in Hc1' as (nd1 & Hnd1 & Hcl1 & Hv1 & Hp1).
  unfold Forms.showFieldError. rewrite Hclear. simpl. rewrite Hnd1. simpl.
  rewrite Hp1. simpl.
  set (d2 := <[g := Forms.classList_add "is-invalid" nd1]> d1).
  set (e := fresh (dom d2)).
  assert (He : e ∉ dom d2) by apply is_fresh.
  assert (Hdom2 : dom d2 = dom d).
  { subst d2. rewrite dom_insert_lookup_L by (by exists nd1). exact Hdom. }
  assert (HeL : forall f, f ∈ L -> f <> e).
  { intros f Hf ->. apply He. rewrite Hdom2. by apply (guarded_in_dom d L). }
  eexists. split; [reflexivity|]. split; [|split].
  - intros f Hf Hfg. rewrite core_appendChild by (by apply HeL).
    rewrite core_insert_ne by (by apply HeL).
    subst d2. rewrite core_insert_ne by exact Hfg. by apply Hother.
  - intros cl0 v0 p0 Hc0. rewrite Hc in Hc0. injection Hc0 as <- <- <-.
    rewrite core_appendChild by (by apply HeL).
    rewrite core_insert_ne by (by apply HeL).
    subst d2. rewrite core_insert_eq. simpl. rewrite Hv1, Hp1, Hcl1.
    eexists. split; [reflexivity|]. split.
    + case_decide; [done|]. apply elem_of_app. right. by apply list_elem_of_singleton.
    + intros Hin. case_decide.
      * by apply list_elem_of_filter in Hin as [_ Hin].
      * apply elem_of_app in Hin as [Hin | Hin].
        -- by apply list_elem_of_filter in Hin as [_ Hin].
        -- apply list_elem_of_singleton in Hin. discriminate Hin.
  - intros f Hf. rewrite <- Hdom2 in Hf.
    unfold Forms.appendChild. rewrite !dom_alter_L.
    apply dom_insert_subseteq. exact Hf.
Qed.

End FormFacts.

Lemma field_value_core (d : gmap nat Forms.dnode) (f : nat) cl v p :
  Forms.core d f = Some (cl, Some v, p) -> Forms.field_value d f = v.
Proof.
  intros Hc. apply core_Some in Hc as (nd & Hnd & _ & Hv & _).
  unfold Forms.field_value. rewrite Hnd. simpl. by rewrite Hv.
Qed.

Lemma field_value_same_core (d d' : gmap nat Forms.dnode) (f : nat) :
  Forms.core d' f = Forms.core d f -> Forms.field_value d' f = Forms.field_value d f.
Proof.
  unfold Forms.core, Forms.field_value.
  destruct (d' !! f), (d !! f); simpl; intros H; try done.
  injection H as _ Hv _. by rewrite Hv.
Qed.

Section FormValidation.
Variable select_required : gmap nat Forms.dnode -> nat -> list nat.
Variable select_feedback : gmap nat Forms.dnode -> nat -> option nat.
Hypothesis Hsound : Forms.feedback_sound select_feedback.
Variable L : list nat.

Lemma validate_field_spec (b : bool) (d : gmap nat Forms.dnode) (g : nat) :
  Forms.guarded d L -> g ∈ L ->
  exists d',
    Forms.validate_field select_feedback (Some (b, d)) g =
      Some (b && negb (Forms.blank (Forms.field_value d g)), d') /\
    Forms.guarded d' L /\
    Forms.marked d' g /\
    (forall f, f ∈ L -> f <> g -> Forms.core d' f = Forms.core d f) /\
    (forall f, f ∈ L -> Forms.field_value d' f = Forms.field_value d f) /\
    (Forms.blank (Forms.field_value d g) = false -> dom d' = dom d).
Proof.
  intros Hg HgL.
  destruct (Hg g HgL) as (cl & v & p & Hc & Hnf).
  rewrite (field_value_core d g _ _ _ Hc).
  pose proof Hc as Hc'. apply core_Some in Hc' as (nd & Hnd & Hcl & Hv & Hp).
  unfold Forms.validate_field. simpl. rewrite Hnd. simpl. rewrite Hv. simpl.
  rewrite trim_blank.
  destruct (Forms.blank v) eqn:Hblank; simpl.
  - destruct (showFieldError_spec select_feedback Hsound d L g "This field is required"
                Hg HgL) as (d' & Hshow & Hother & Hself & Hdom).
    destruct (Hself _ _ _ Hc) as (cl' & Hc1 & Hinv & Hfb).
    rewrite Hshow. simpl. exists d'. rewrite andb_false_r.
    split; [reflexivity|]. split; [|split; [|split; [|split]]].
    + intros f Hf. destruct (decide (f = g)) as [-> | Hne].
      * exists cl', v, p. split; [exact Hc1 | intros Hin; by apply Hnf, Hfb].
      * rewrite (Hother f Hf Hne). by apply Hg.
    + intros cl0 v0 p0 Hc0. rewrite Hc1 in Hc0. injection Hc0 as <- <- <-. done.
    + exact Hother.
    + intros f Hf. destruct (decide (f = g)) as [-> | Hne].
      * by rewrite (field_value_core d' g _ _ _ Hc1), (field_value_core d g _ _ _ Hc).
      * by apply field_value_same_core, Hother.
    + done.
  - destruct (clearFieldError_spec select_feedback Hsound d L g Hg HgL)
      as (d' & Hclear & Hother & Hself & Hdom).
    pose proof (Hself _ _ _ Hc) as Hc1.
    rewrite Hclear. simpl. exists d'. rewrite andb_true_r.
    split; [reflexivity|]. split; [|split; [|split; [|split]]].
    + intros f Hf. destruct (decide (f = g)) as [-> | Hne].
      * eexists _, v, p. split; [exact Hc1|].
        intros Hin. by apply list_elem_of_filter in Hin as [_ Hin].
      * rewrite (Hother f Hf Hne). by apply Hg.
    + intros cl0 v0 p0 Hc0. rewrite Hc1 in Hc0. injection Hc0 as <- <- <-.
      rewrite Hblank. split; [|done].
      intros Hin. by apply list_elem_of_filter in Hin as [Hin _].
    + exact Hother.
    + intros f Hf. destruct (decide (f = g)) as [-> | Hne].
      * by rewrite (field_value_core d' g _ _ _ Hc1), (field_value_core d g _ _ _ Hc).
      * by apply field_value_same_core, Hother.
    + intros _. exact Hdom.
Qed.

Lemma marked_same_core (d d' : gmap nat Forms.dnode) (f : nat) :
  Forms.core d' f = Forms.core d f -> Forms.marked d f -> Forms.marked d' f.
Proof. intros Hc Hm cl v p Hc'. rewrite Hc in Hc'. exact (Hm cl v p Hc'). Qed.

Lemma validate_fold_spec (todo : list nat) :
  forall (b : bool) (d : gmap nat Forms.dnode),
  Forms.guarded d L -> (forall f, f ∈ todo -> f ∈ L) ->
  exists d',
    fold_left (Forms.validate_field select_feedback) todo (Some (b, d)) =
      Some (b && forallb (fun f => negb (Forms.blank (Forms.field_value d f))) todo, d') /\
    Forms.guarded d' L /\
    (forall f, f ∈ L ->
       (f ∈ todo -> Forms.marked d' f) /\
       (f ∉ todo -> Forms.core d' f = Forms.core d f)) /\
    (forall f, f ∈ L -> Forms.field_value d' f = Forms.field_value d f) /\
    (forallb (fun f => negb (Forms.blank (Forms.field_value d f))) todo = true ->
     dom d' = dom d).
Proof.
  induction todo as [|g rest IH]; intros b d Hg Hsub.
  - exists d. simpl. rewrite andb_true_r. split; [reflexivity|]. split; [exact Hg|].
    split; [|split; [done|done]].
    intros f _. split; [intros Hf; by apply elem_of_nil in Hf | done].
  - destruct (validate_field_spec b d g Hg) as (d1 & Hstep & Hg1 & Hm1 & Ho1 & Hv1 & Hdom1).
    { apply Hsub. by apply elem_of_cons; left. }
    destruct (IH (b && negb (Forms.blank (Forms.field_value d g))) d1 Hg1)
      as (d' & Hfold & Hg' & Hst' & Hv' & Hdom').
    { intros f Hf. apply Hsub. by apply elem_of_cons; right. }
    assert (Hall : forallb (fun f => negb (Forms.blank (Forms.field_value d1 f))) rest =
                   forallb (fun f => negb (Forms.blank (Forms.field_value d f))) rest).
    { clear -Hv1 Hsub.
      induction rest as [|x rest IHr]; [reflexivity|]. simpl.
      rewrite Hv1 by (apply Hsub; apply elem_of_cons; right; by apply elem_of_cons; left).
      f_equal. apply IHr. intros f Hf. apply Hsub.
      apply elem_of_cons in Hf as [-> | Hf]; [by apply elem_of_cons; left|].
      apply elem_of_cons; right. by apply elem_of_cons; right. }
    exists d'. cbn [fold_left forallb]. rewrite Hstep, Hfold, Hall, andb_assoc.
    split; [reflexivity|]. split; [exact Hg'|]. split; [|split].
    + intros f Hf. destruct (Hst' f Hf) as [Hin Hout]. split.
      * intros Hfin. destruct (decide (f ∈ rest)) as [Hr | Hr]; [by apply Hin|].
        apply elem_of_cons in Hfin as [-> | Hfin]; [|done].
        apply (marked_same_core d1); [by apply Hout | exact Hm1].
      * intros Hnin. apply not_elem_of_cons in Hnin as [Hne Hnr].
        rewrite (Hout Hnr). by apply Ho1.
    + intros f Hf. by rewrite Hv', Hv1.
    + intros Hok. apply andb_true_iff in Hok as [Hok1 Hok2].
      rewrite Hdom' by (by rewrite Hall). apply Hdom1.
      by apply negb_true_iff in Hok1.
Qed.

End FormValidation.

Lemma field_ok_guarded (d : gmap nat Forms.dnode) (L : list nat) :
  (forall f, f ∈ L -> Forms.field_ok d f) -> Forms.guarded d L.
Proof.
  intros Hok f Hf. destruct (Hok f Hf) as (nd & v & p & Hnd & Hv & Hp & _ & Hnf).
  exists (Forms.classList nd), v, p. split; [|exact Hnf].
  apply core_Some. exists nd. auto.
Qed.

Lemma negb_forallb_negb {A} (P : A -> bool) (l : list A) :
  negb (forallb (fun x => negb (P x)) l) = existsb P l.
Proof.
  induction l as [|x l IH]; [reflexivity|]. simpl.
  rewrite negb_andb, negb_involutive, IH. reflexivity.
Qed.

(** X13: [validateForm] accepts a form exactly when every required field
    has a value that is not blank (empty or white space only, white space
    being what [trim] removes: the ASCII white space and the Unicode
    spaces).  For a form whose required fields are in the document with a
    string value and a parent, have no element inside them and are not
    themselves error messages, it returns without throwing; its result is true exactly when no required
    field is blank; afterwards each required field keeps its value and
    carries the class is-invalid exactly when its value is blank; and
    when the form is valid no node is created. *)
Theorem validateForm_checks_required
    (select_required : gmap nat Forms.dnode -> nat -> list nat)
    (select_feedback : gmap nat Forms.dnode -> nat -> option nat)
    (form : nat) (d : gmap nat Forms.dnode)
    (Hsound : Forms.feedback_sound select_feedback)
    (Hfields : forall f, f ∈ select_required d form -> Forms.field_ok d f) :
  let fields := select_required d form in
  let isValid := forallb (fun f => negb (Forms.blank (Forms.field_value d f))) fields in
  exists d',
    Forms.validateForm select_required select_feedback form d = Some (isValid, d') /\
    (forall f, f ∈ fields ->
       exists nd nd' v,
         d !! f = Some nd /\ d' !! f = Some nd' /\
         Forms.value nd = Some v /\ Forms.value nd' = Some v /\
         Forms.field_value d f = v /\
         ("is-invalid" ∈ Forms.classList nd' <-> Forms.blank v = true)) /\
    (isValid = true -> dom d' = dom d).
Proof.
  intros fields isValid.
  pose proof (field_ok_guarded d fields Hfields) as Hg.
  destruct (validate_fold_spec select_feedback Hsound fields fields true d Hg)
    as (d' & Hfold & Hg' & Hst & Hv & Hdom); [done|].
  exists d'. split; [exact Hfold|]. split; [|exact Hdom].
  intros f Hf.
  destruct (Hfields f Hf) as (nd & v & p & Hnd & Hval & _).
  destruct (Hg' f Hf) as (cl' & v' & p' & Hc' & _).
  pose proof Hc' as Hc''. apply core_Some in Hc'' as (nd' & Hnd' & Hcl' & Hv' & _).
  assert (Hfv : Forms.field_value d f = v).
  { unfold Forms.field_value. rewrite Hnd. simpl. by rewrite Hval. }
  assert (Hvv : v' = v).
  { specialize (Hv f Hf). rewrite Hfv in Hv. unfold Forms.field_value in Hv.
    rewrite Hnd' in Hv. simpl in Hv. rewrite Hv' in Hv. exact Hv. }
  subst v'.
  exists nd, nd', v. split; [exact Hnd|]. split; [exact Hnd'|].
  split; [exact Hval|]. split; [exact Hv'|]. split; [exact Hfv|].
  destruct (Hst f Hf) as [Hm _]. specialize (Hm Hf cl' v (Some p') Hc').
  by rewrite Hcl'.
Qed.

Lemma validateForm_checks_required_witness :
  let d : gmap nat Forms.dnode :=
    <[0%nat := Forms.DNode [] None "" None [1%nat; 2%nat]]>
    (<[1%nat := Forms.DNode ["form-control"] (Some "   ") "" (Some 0%nat) []]>
    (<[2%nat := Forms.DNode ["form-control"] (Some "ada") "" (Some 0%nat) []]> ∅)) in
  exists d',
    Forms.validateForm (fun _ _ => [1%nat; 2%nat]) (fun _ _ => None) 0 d = Some (false, d').
Proof.
  cbv zeta.
  destruct (validateForm_checks_required (fun _ _ => [1%nat; 2%nat]) (fun _ _ => None) 0
    (<[0%nat := Forms.DNode [] None "" None [1%nat; 2%nat]]>
    (<[1%nat := Forms.DNode ["form-control"] (Some "   ") "" (Some 0%nat) []]>
    (<[2%nat := Forms.DNode ["form-control"] (Some "ada") "" (Some 0%nat) []]> ∅))))
    as (d' & Hv & _).
  - intros d el e He. discriminate He.
  - intros f Hf. apply elem_of_cons in Hf as [-> | Hf];
      [|apply list_elem_of_singleton in Hf as ->];
      eexists _, _, 0%nat; (split; [reflexivity|]); (split; [reflexivity|]);
      (split; [reflexivity|]); (split; [reflexivity|]);
      simpl; intros Hin; apply list_elem_of_singleton in Hin; discriminate Hin.
  - exists d'. exact Hv.
Defined.

(** X14: the submit listener of [setupFormValidation] blocks a
    submission exactly when some required field is blank.  Under the same
    conditions on the form, it returns without throwing, and it has
    called preventDefault and stopPropagation if and only if the value of
    at least one required field is empty or white space only (the ASCII
    white space and the Unicode spaces [trim] removes). *)
Theorem submit_blocked_iff_blank_field
    (select_required : gmap nat Forms.dnode -> nat -> list nat)
    (select_feedback : gmap nat Forms.dnode -> nat -> option nat)
    (form : nat) (d : gmap nat Forms.dnode)
    (Hsound : Forms.feedback_sound select_feedback)
    (Hfields : forall f, f ∈ select_required d form -> Forms.field_ok d f) :
  exists d',
    Forms.on_submit select_required select_feedback form d =
      Some (existsb (fun f => Forms.blank (Forms.field_value d f)) (select_required d form),
            d').
Proof.
  pose proof (field_ok_guarded d (select_required d form) Hfields) as Hg.
  destruct (validate_fold_spec select_feedback Hsound (select_required d form)
              (select_required d form) true d Hg)
    as (d' & Hfold & _); [done|].
  exists d'. unfold Forms.on_submit, Forms.validateForm. cbv zeta.
  rewrite Hfold. simpl. by rewrite negb_forallb_negb.
Qed.

Lemma submit_blocked_iff_blank_field_witness :
  let nbsp := String (ascii_of_nat 194) (String (ascii_of_nat 160) EmptyString) in
  let d : gmap nat Forms.dnode :=
    <[0%nat := Forms.DNode [] None "" None [1%nat; 2%nat]]>
    (<[1%nat := Forms.DNode [] (Some "ada") "" (Some 0%nat) []]>
    (<[2%nat := Forms.DNode [] (Some nbsp) "" (Some 0%nat) []]> ∅)) in
  exists d',
    Forms.on_submit (fun _ _ => [1%nat; 2%nat]) (fun _ _ => None) 0 d = Some (true, d').
Proof.
  cbv zeta.
  destruct (submit_blocked_iff_blank_field (fun _ _ => [1%nat; 2%nat]) (fun _ _ => None) 0
    (<[0%nat := Forms.DNode [] None "" None [1%nat; 2%nat]]>
    (<[1%nat := Forms.DNode [] (Some "ada") "" (Some 0%nat) []]>
    (<[2%nat := Forms.DNode [] (Some (String (ascii_of_nat 194)
                                        (String (ascii_of_nat 160) EmptyString)))
                 "" (Some 0%nat) []]> ∅))))
    as (d' & Hv).
  - intros d el e He. discriminate He.
  - intros f Hf. apply elem_of_cons in Hf as [-> | Hf];
      [|apply list_elem_of_singleton in Hf as ->];
      eexists _, _, 0%nat; (split; [reflexivity|]); (split; [reflexivity|]);
      (split; [reflexivity|]); (split; [reflexivity|]);
      simpl; intros Hin; by apply elem_of_nil in Hin.
  - exists d'. exact Hv.
Defined.

(** ** Auto-refresh periods are never zero *)



